(** * mio: the self-cleaning histogram coordinator

    A shallow embedding of [mio.go] (package [mio]): the
    [SelfCleaningHistogram] wrapper, its coordinating goroutine [decay] and
    the [Registrar] methods [Register], [Done] and [Shutdown].

    The goroutine, the unbuffered channel [h.c], the cancellation context and
    the runtime timers are modelled by one explicit state and a labelled
    step function: each label is one atomic action of some goroutine or of
    the Go runtime.  The hand-off of a delta on [h.c] and what [decay] does
    with it are one step: between two [select]s [decay] touches only its own
    locals and the timer it holds. *)

From Stdlib Require Import ZArith List Bool Lia Permutation.
From stdpp Require Import base option list.
Import ListNotations.

Local Open Scope Z_scope.

(** ** Go's [int]

    [cnt] in [decay] is a Go [int]: 64 bits on the platforms the package is
    built for, two's complement, and [+=] wraps around silently. *)

Module GoInt.

Definition bits : Z := 64.
Definition min_int : Z := - 2 ^ (bits - 1).
Definition max_int : Z := 2 ^ (bits - 1) - 1.

(** The value of an [int] expression whose mathematical value is [z]. *)
Definition wrap (z : Z) : Z := (z - min_int) mod 2 ^ bits + min_int.

Definition add (a b : Z) : Z := wrap (a + b).

Definition in_range (z : Z) : Prop := min_int <= z <= max_int.

End GoInt.

(** ** The [Histogram] interface

    Only the methods the coordinator and the tests use are kept: the
    statistical reads ([Max], [Mean], [Percentile], ...) are passed through
    to the wrapped value and play no role in the coordination. *)

Class Histogram (H : Type) := {
  Clear : H -> H;
  Count : H -> Z;
  Update : Z -> H -> H
}.

(** Modelled from the spec: the histogram implementation
    ([metrics.NewHistogram] over a sample) is an external collaborator that
    is not part of this repository.  Following the spec's data model,
    [Clear] resets to the empty state, [Update] adds one observation and
    [Count] is the number of observations since the last [Clear]. *)
#[export] Instance SampleHistogram : Histogram (list Z) := {
  Clear := fun _ => [];
  Count := fun h => Z.of_nat (length h);
  Update := fun v h => h ++ [v]
}.

(** ** Runtime timers

    [time.AfterFunc(d, f)] creates a timer that, once its instant has come,
    starts [f] in a goroutine of its own; [Timer.Stop] prevents that only if
    the timer has not expired yet, and never waits for an [f] already
    started.  A timer is therefore in one of four states. *)

Inductive timer_status : Type :=
| Pending   (* armed: neither expired nor stopped *)
| Stopped   (* Stop came first; f will never run *)
| Expired   (* the runtime has started f, which has not run yet *)
| Ran.      (* f has run *)

Definition timer_status_eqb (a b : timer_status) : bool :=
  match a, b with
  | Pending, Pending | Stopped, Stopped | Expired, Expired | Ran, Ran => true
  | _, _ => false
  end.

Record Timer : Type := mkTimer {
  when : Z;               (* the instant at which the timer expires *)
  status : timer_status
}.

Definition is_pending (tm : Timer) : bool := timer_status_eqb (status tm) Pending.

Definition set_status (st : timer_status) (tm : Timer) : Timer :=
  {| when := when tm; status := st |}.

(** The largest [int64]: the clock and a [time.Duration] are [int64]
    numbers of nanoseconds. *)
Definition MaxInt64 : Z := 9223372036854775807.

(** The instant [time.AfterFunc] gives a timer of duration [d] (the [when]
    function of Go's [time] package): the clock itself if [d] is not
    positive; else the clock plus [d], added as [int64] (the 64 bits of
    [GoInt]), where a sum that has overflowed, which shows as a negative one,
    is replaced by [MaxInt64]. *)
Definition when_after (now d : Z) : Z :=
  if d <=? 0 then now
  else
    let t := GoInt.wrap (now + d) in
    if t <? 0 then MaxInt64 else t.

(** [time.AfterFunc]: the new timer's handle is its index in the heap. *)
Definition AfterFunc (now d : Z) (timers : list Timer) : nat * list Timer :=
  (length timers, timers ++ [ {| when := when_after now d; status := Pending |} ]).

(** [t.Stop()]; the boolean Go returns is dropped, as [decay] drops it. *)
Definition Stop (id : nat) (timers : list Timer) : list Timer :=
  match timers !! id with
  | Some tm => if is_pending tm then <[id := set_status Stopped tm]> timers else timers
  | None => timers
  end.

(** ** The state *)

Section Coordinator.

Context {H : Type} `{Histogram H}.

Record state : Type := mkState {
  hist : H;               (* h.Histogram, the wrapped histogram *)
  ctx_done : bool;        (* h.ctx.Done() is closed (h.cancel was called) *)
  delay : Z;              (* decay's argument, in nanoseconds *)
  t : option nat;         (* decay's local [t *time.Timer]; nil is None *)
  cnt : Z;                (* decay's local [cnt int] *)
  running : bool;         (* the decay goroutine has not returned *)
  timers : list Timer;    (* the timers created so far *)
  now : Z                 (* the clock, in nanoseconds *)
}.

Definition set_hist (h : H) (s : state) : state :=
  {| hist := h; ctx_done := ctx_done s; delay := delay s; t := t s;
     cnt := cnt s; running := running s; timers := timers s; now := now s |}.

Definition set_timers (l : list Timer) (s : state) : state :=
  {| hist := hist s; ctx_done := ctx_done s; delay := delay s; t := t s;
     cnt := cnt s; running := running s; timers := l; now := now s |}.

(** [NewSelfCleaningHistogram]: the constructor returns once [decay] has
    closed [guard], that is with [t] nil and the goroutine about to enter
    its loop ([cnt] is zero when first read). *)
Definition NewSelfCleaningHistogram (histogram : H) (d : Z) : state :=
  {| hist := histogram; ctx_done := false; delay := d; t := None;
     cnt := 0; running := true; timers := []; now := 0 |}.

(** The two branches of the [select] in [decay]. *)

(** [case i := <-h.c] *)
Definition decay_recv (i : Z) (s : state) : state :=
  let cnt' := GoInt.add (cnt s) i in
  if cnt' =? 0 then
    let '(id, l) := AfterFunc (now s) (delay s) (timers s) in
    {| hist := hist s; ctx_done := ctx_done s; delay := delay s; t := Some id;
       cnt := cnt'; running := running s; timers := l; now := now s |}
  else
    {| hist := hist s; ctx_done := ctx_done s; delay := delay s; t := t s;
       cnt := cnt'; running := running s;
       timers := match t s with
                 | Some id => Stop id (timers s)
                 | None => timers s
                 end;
       now := now s |}.

(** [case <-h.ctx.Done()] *)
Definition decay_cancel (s : state) : state :=
  {| hist := hist s; ctx_done := ctx_done s; delay := delay s; t := t s;
     cnt := cnt s; running := false;
     timers := match t s with
               | Some id => Stop id (timers s)
               | None => timers s
               end;
     now := now s |}.

(** A caller's [select] between [h.c <- i] and [<-h.ctx.Done()].

    The hand-off on the unbuffered [h.c] needs [decay] parked in its own
    [select]; no [select] parks once [ctx.Done()] is closed, and closing it
    wakes every parked one, so after [h.cancel] only the second case can be
    taken.  Before it, the call waits for [decay] to come back to its
    [select], which it does as long as it has not returned: the result is
    [None] when the call would block for ever.

    An accepted call stands for the hand-off together with what [decay] then
    does with the delta, at the moment [decay] does it: the states of a run
    are those [decay] is in between two iterations of its loop.  The caller
    itself returns at the hand-off, which may be earlier; statements about
    the moment [decay] handles a delta are made on [decay_recv]. *)
Definition send (i : Z) (s : state) : option state :=
  if ctx_done s then Some s
  else if running s then Some (decay_recv i s)
  else None.

Definition Register (s : state) : option state := send 1 s.
Definition Done (s : state) : option state := send (-1) s.

(** [Shutdown] calls [h.cancel], which closes [ctx.Done()] the first time
    and does nothing afterwards. *)
Definition Shutdown (s : state) : state :=
  {| hist := hist s; ctx_done := true; delay := delay s; t := t s;
     cnt := cnt s; running := running s; timers := timers s; now := now s |}.

(** ** Steps *)

Inductive event : Type :=
| CallRegister                 (* some goroutine calls h.Register() *)
| CallDone                     (* some goroutine calls h.Done() *)
| CallShutdown                 (* some goroutine calls h.Shutdown() *)
| CallUpdate (v : Z)           (* some goroutine calls h.Update(v) *)
| DecayCancel                  (* decay takes the ctx.Done() case *)
| Elapse (d : Z)               (* d nanoseconds go by *)
| TimerExpire (id : nat)       (* the runtime finds timer id due *)
| TimerRun (id : nat).         (* the goroutine started for timer id runs h.Clear *)

Definition step (e : event) (s : state) : option state :=
  match e with
  | CallRegister => Register s
  | CallDone => Done s
  | CallShutdown => Some (Shutdown s)
  | CallUpdate v => Some (set_hist (Update v (hist s)) s)
  | DecayCancel =>
      if ctx_done s && running s then Some (decay_cancel s) else None
  | Elapse d =>
      if 0 <=? d then
        Some {| hist := hist s; ctx_done := ctx_done s; delay := delay s;
                t := t s; cnt := cnt s; running := running s;
                timers := timers s; now := now s + d |}
      else None
  | TimerExpire id =>
      match timers s !! id with
      | Some tm =>
          if is_pending tm && (when tm <=? now s)
          then Some (set_timers (<[id := set_status Expired tm]> (timers s)) s)
          else None
      | None => None
      end
  | TimerRun id =>
      match timers s !! id with
      | Some tm =>
          if timer_status_eqb (status tm) Expired
          then Some (set_hist (Clear (hist s))
                       (set_timers (<[id := set_status Ran tm]> (timers s)) s))
          else None
      | None => None
      end
  end.

Fixpoint run (evs : list event) (s : state) : option state :=
  match evs with
  | [] => Some s
  | e :: evs' =>
      match step e s with
      | Some s' => run evs' s'
      | None => None
      end
  end.

(** The states the program can be in. *)
Definition reachable (s : state) : Prop :=
  exists histogram d evs, run evs (NewSelfCleaningHistogram histogram d) = Some s.

(** ** Observations *)

(** Some timer is armed. *)
Definition armed (s : state) : bool := existsb is_pending (timers s).

(** The status of the timer [t] points to, if [t] is not nil. *)
Definition t_status (s : state) : option timer_status :=
  match t s with
  | Some id => status <$> timers s !! id
  | None => None
  end.

(** Clear goroutines that were started and have not run yet. *)
Definition in_flight (s : state) : bool :=
  existsb (fun tm => timer_status_eqb (status tm) Expired) (timers s).

End Coordinator.

Arguments state H : clear implicits.

(** ** The metered writer *)

(** Modelled from the spec: the metered stream decorators ([NewWriter] and
    the writer's [Write] and [Close]) belong to this package but their file
    is missing; only [TestWriterDoubleClose] shows their use.  The spec
    gives the decorator one flag, "closed", that guards the teardown, and an
    optional Registrar, decided at construction. *)
Record Writer : Type := mkWriter {
  closed : bool;          (* the "closed" flag *)
  registrar : bool;       (* the bound histogram is also a Registrar *)
  outstanding : bool;     (* a Register() of this decorator awaits its Done() *)
  released : nat;         (* how often the underlying resources were released *)
  endpoint_close : option nat   (* what releasing the endpoint returns; nil is None *)
}.

Section MeteredWriter.

Context {H : Type} `{Histogram H}.

(** Modelled from the spec: the writer's close operation, which is missing
    with the writer.  Only the first invocation releases the underlying
    resources and issues the compensating [Done()] if a [Register()] is
    outstanding; every later one is a no-op with the no-error result.  The
    result is the new decorator, the coordinator's new state and the error
    returned, or [None] when the call would never return. *)
Definition Close (w : Writer) (s : state H) : option (Writer * state H * option nat) :=
  if closed w then Some (w, s, None)
  else
    let w' := {| closed := true; registrar := registrar w; outstanding := false;
                 released := S (released w); endpoint_close := endpoint_close w |} in
    if registrar w && outstanding w then
      match Done s with
      | Some s' => Some (w', s', endpoint_close w)
      | None => None
      end
    else Some (w', s, endpoint_close w).

End MeteredWriter.

(** ** Sequences of calls *)

(** The two callers of [h.c]: what [Register] and [Done] send. *)
Inductive delta : Type := Reg | Don.

Definition delta_value (d : delta) : Z :=
  match d with Reg => 1 | Don => -1 end.

Definition delta_event (d : delta) : event :=
  match d with Reg => CallRegister | Don => CallDone end.

(** How many [Register] and how many [Done] deltas a sequence holds. *)
Fixpoint registers (ds : list delta) : Z :=
  match ds with
  | [] => 0
  | Reg :: ds' => 1 + registers ds'
  | Don :: ds' => registers ds'
  end.

Fixpoint dones (ds : list delta) : Z :=
  match ds with
  | [] => 0
  | Reg :: ds' => dones ds'
  | Don :: ds' => 1 + dones ds'
  end.

(** The deltas [decay] accepts in the course of a run that starts before any
    [Shutdown]: those of the calls made before the first [Shutdown]. *)
Fixpoint accepted (evs : list event) : list delta :=
  match evs with
  | [] => []
  | CallRegister :: evs' => Reg :: accepted evs'
  | CallDone :: evs' => Don :: accepted evs'
  | CallShutdown :: _ => []
  | _ :: evs' => accepted evs'
  end.

(** [decay] receiving the deltas of [ds] one after the other. *)
Definition deliver {H : Type} (ds : list delta) (s : state H) : state H :=
  fold_left (fun s d => decay_recv (delta_value d) s) ds s.

(** ** The invariant of the coordinator

    What holds in every state the program can be in: [decay] has returned
    only on cancellation; [cnt] is an [int]; a timer is armed only if it is
    the one [t] points to, the counter is zero and [decay] still runs; and,
    as long as the counter is zero and [decay] runs, the timer [t] points to
    has not been stopped. *)
Record inv {H : Type} (s : state H) : Prop := mkInv {
  inv_ctx : running s = false -> ctx_done s = true;
  inv_cnt : GoInt.in_range (cnt s);
  inv_pending : forall (id : nat) (tm : Timer),
      timers s !! id = Some tm -> status tm = Pending ->
      t s = Some id /\ cnt s = 0 /\ running s = true;
  inv_t : forall id : nat, t s = Some id ->
      exists tm : Timer, timers s !! id = Some tm /\
        (cnt s = 0 -> running s = true -> status tm <> Stopped)
}.

(** ** Statements about states *)

(** [time.Millisecond], in nanoseconds. *)
Definition Millisecond : Z := 1000000.

(** The idle timer is armed exactly when the counter is zero and [decay] has
    not shut down. *)
Definition armed_iff_idle {H : Type} (s : state H) : Prop :=
  armed s = true <-> cnt s = 0 /\ running s = true.

(** The timer [t] points to exists and has not expired. *)
Definition unexpired {H : Type} (s : state H) : Prop :=
  exists st : timer_status, t_status s = Some st /\ st <> Expired /\ st <> Ran.

Definition is_update (e : event) : bool :=
  match e with CallUpdate _ => true | _ => false end.

(** Whatever happens from [s] on, short of a call of [Update], the samples
    stay as they are in [s]. *)
Definition samples_frozen {H : Type} `{Histogram H} (s : state H) : Prop :=
  forall (evs : list event) (s' : state H),
    forallb (fun e => negb (is_update e)) evs = true ->
    run evs s = Some s' -> hist s' = hist s.

(** ** Statements about runs *)

(** A run without its calls of [Update]. *)
Definition without_updates (evs : list event) : list event :=
  List.filter (fun e => negb (is_update e)) evs.

(** Everything in a state but the wrapped histogram: what [decay], the
    context and the timers hold. *)
Definition coordination {H : Type} (s : state H)
  : bool * Z * option nat * Z * bool * list Timer * Z :=
  (ctx_done s, delay s, t s, cnt s, running s, timers s, now s).

(** The timer has fired: its goroutine was started, and has perhaps run. *)
Definition has_fired (tm : Timer) : bool :=
  match status tm with
  | Expired | Ran => true
  | Pending | Stopped => false
  end.

(** Every timer that has fired was due. *)
Definition fired_are_due {H : Type} (s : state H) : Prop :=
  forall (id : nat) (tm : Timer),
    timers s !! id = Some tm -> has_fired tm = true -> when tm <= now s.

(** * Proofs *)

(** ** Arithmetic of Go's [int] *)

Lemma wrap_in_range (z : Z) : GoInt.in_range (GoInt.wrap z).
Proof.
  unfold GoInt.in_range, GoInt.wrap, GoInt.min_int, GoInt.max_int, GoInt.bits.
  pose proof (Z.mod_pos_bound (z - - 2 ^ (64 - 1)) (2 ^ 64) ltac:(lia)) as Hb.
  change (2 ^ (64 - 1)) with 9223372036854775808 in *.
  change (2 ^ 64) with 18446744073709551616 in *.
  lia.
Qed.

Lemma wrap_small (z : Z) : GoInt.in_range z -> GoInt.wrap z = z.
Proof.
  unfold GoInt.in_range, GoInt.wrap, GoInt.min_int, GoInt.max_int, GoInt.bits.
  change (2 ^ (64 - 1)) with 9223372036854775808.
  change (2 ^ 64) with 18446744073709551616.
  intros Hr. rewrite Z.mod_small; lia.
Qed.

Lemma wrap_add_l (a b : Z) : GoInt.wrap (GoInt.wrap a + b) = GoInt.wrap (a + b).
Proof.
  unfold GoInt.wrap. f_equal.
  replace ((a - GoInt.min_int) mod 2 ^ GoInt.bits + GoInt.min_int + b - GoInt.min_int)
    with ((a - GoInt.min_int) mod 2 ^ GoInt.bits + b) by lia.
  replace (a + b - GoInt.min_int) with ((a - GoInt.min_int) + b) by lia.
  now rewrite Zplus_mod_idemp_l.
Qed.

(** From zero, a delta of one never gives zero again; no other value of the
    counter is one step away from zero. *)
Lemma add_unit_zero (c i : Z) :
  GoInt.in_range c -> i = 1 \/ i = -1 -> (GoInt.add c i = 0 <-> c = - i).
Proof.
  unfold GoInt.in_range, GoInt.add, GoInt.wrap, GoInt.min_int, GoInt.max_int, GoInt.bits.
  change (2 ^ (64 - 1)) with 9223372036854775808.
  change (2 ^ 64) with 18446744073709551616.
  intros Hr Hi.
  split; intros Hz; destruct Hi; subst i; Z.div_mod_to_equations; lia.
Qed.

(** ** The instant of a timer *)

Lemma when_after_nonpos (now d : Z) : d <= 0 -> when_after now d = now.
Proof.
  intros Hd. unfold when_after.
  assert ((d <=? 0) = true) as -> by (apply Z.leb_le; lia). reflexivity.
Qed.

Lemma when_after_exact (now d : Z) :
  0 < d -> 0 <= now -> now + d <= MaxInt64 -> when_after now d = now + d.
Proof.
  intros Hd Hn Hs. unfold when_after.
  assert ((d <=? 0) = false) as -> by (apply Z.leb_gt; lia).
  cbv zeta. rewrite wrap_small.
  - assert ((now + d <? 0) = false) as -> by (apply Z.ltb_ge; lia). reflexivity.
  - unfold GoInt.in_range, GoInt.min_int, GoInt.max_int, GoInt.bits, MaxInt64 in *.
    simpl. lia.
Qed.

Lemma when_after_saturated (now d : Z) :
  0 < d <= MaxInt64 -> 0 <= now <= MaxInt64 -> MaxInt64 < now + d ->
  when_after now d = MaxInt64.
Proof.
  intros Hd Hn Hs. unfold when_after.
  assert ((d <=? 0) = false) as -> by (apply Z.leb_gt; lia).
  cbv zeta.
  assert (Hw : GoInt.wrap (now + d) = now + d - 18446744073709551616).
  { unfold GoInt.wrap, GoInt.min_int, GoInt.bits, MaxInt64 in *.
    change (2 ^ (64 - 1)) with 9223372036854775808.
    change (2 ^ 64) with 18446744073709551616.
    Z.div_mod_to_equations. lia. }
  rewrite Hw.
  assert ((now + d - 18446744073709551616 <? 0) = true) as ->
    by (apply Z.ltb_lt; unfold MaxInt64 in *; lia).
  reflexivity.
Qed.

(** ** The timer heap *)

Lemma is_pending_true (tm : Timer) : is_pending tm = true <-> status tm = Pending.
Proof. unfold is_pending. destruct (status tm); simpl; split; congruence. Qed.

Lemma length_Stop (id : nat) (l : list Timer) : length (Stop id l) = length l.
Proof.
  unfold Stop. destruct (l !! id) as [tm|]; [|reflexivity].
  destruct (is_pending tm); [apply length_insert | reflexivity].
Qed.

Lemma Stop_lookup_ne (id j : nat) (l : list Timer) :
  id <> j -> Stop id l !! j = l !! j.
Proof.
  intros Hne. unfold Stop. destruct (l !! id) as [tm|]; [|reflexivity].
  destruct (is_pending tm); [now apply list_lookup_insert_ne | reflexivity].
Qed.

Lemma Stop_lookup_eq (id : nat) (l : list Timer) (tm : Timer) :
  l !! id = Some tm ->
  Stop id l !! id = Some (if is_pending tm then set_status Stopped tm else tm).
Proof.
  intros Hl. unfold Stop. rewrite Hl.
  destruct (is_pending tm); [|exact Hl].
  apply list_lookup_insert_eq. eapply lookup_lt_Some; eassumption.
Qed.

(** After [Stop id], timer [id] is not armed, and the others are as before. *)
Lemma Stop_pending (id j : nat) (l : list Timer) (tm : Timer) :
  Stop id l !! j = Some tm -> status tm = Pending -> j <> id /\ l !! j = Some tm.
Proof.
  intros Hl Hp. destruct (decide (id = j)) as [->|Hne].
  - destruct (l !! j) as [tm0|] eqn:E.
    + rewrite (Stop_lookup_eq _ _ _ E) in Hl.
      destruct (is_pending tm0) eqn:Ep; inversion Hl; subst tm.
      * discriminate Hp.
      * apply is_pending_true in Hp. congruence.
    + unfold Stop in Hl. rewrite E in Hl. congruence.
  - rewrite Stop_lookup_ne in Hl by assumption. split; [congruence | assumption].
Qed.

(** A status other than [Pending] is left alone by [Stop]. *)
Lemma Stop_not_pending (id : nat) (l : list Timer) (tm : Timer) :
  l !! id = Some tm -> status tm <> Pending -> Stop id l = l.
Proof.
  intros Hl Hp. unfold Stop. rewrite Hl.
  destruct (is_pending tm) eqn:E; [|reflexivity].
  apply is_pending_true in E. contradiction.
Qed.

Lemma armed_true {H : Type} (s : state H) :
  armed s = true <->
  exists (id : nat) (tm : Timer), timers s !! id = Some tm /\ status tm = Pending.
Proof.
  unfold armed. rewrite existsb_exists. split.
  - intros (tm & Hin & Hp). apply list_elem_of_In, list_elem_of_lookup in Hin.
    destruct Hin as [id Hid]. exists id, tm. split; [assumption|].
    now apply is_pending_true.
  - intros (id & tm & Hl & Hp). exists tm. split.
    + apply list_elem_of_In, list_elem_of_lookup. now exists id.
    + now apply is_pending_true.
Qed.

Lemma armed_false {H : Type} (s : state H) :
  armed s = false <->
  forall (id : nat) (tm : Timer), timers s !! id = Some tm -> status tm <> Pending.
Proof.
  split.
  - intros Ha id tm Hl Hp.
    assert (armed s = true) by (apply armed_true; eauto). congruence.
  - intros Hall. destruct (armed s) eqn:E; [|reflexivity].
    apply armed_true in E. destruct E as (id & tm & Hl & Hp).
    exfalso. eapply Hall; eassumption.
Qed.

(** ** The invariant holds in every reachable state *)

Section Invariant.

Context {H : Type} `{Histogram H}.

Implicit Types (s : state H) (e : event) (i : Z).

Lemma inv_New (histogram : H) (d : Z) : inv (NewSelfCleaningHistogram histogram d).
Proof.
  constructor; simpl.
  - discriminate.
  - unfold GoInt.in_range, GoInt.min_int, GoInt.max_int, GoInt.bits. simpl. lia.
  - intros id tm Hl. rewrite lookup_nil in Hl. discriminate.
  - discriminate.
Qed.

(** The timers left armed once [decay] has stopped the one [t] points to. *)
Lemma stop_t_no_pending s (id : nat) (tm : Timer) :
  inv s ->
  match t s with Some id0 => Stop id0 (timers s) | None => timers s end !! id = Some tm ->
  status tm <> Pending.
Proof.
  intros Hi Hl Hp. destruct (t s) as [id0|] eqn:Et.
  - apply Stop_pending in Hl; [|assumption]. destruct Hl as [Hne Hl].
    destruct (inv_pending s Hi id tm Hl Hp) as [Ht _]. congruence.
  - destruct (inv_pending s Hi id tm Hl Hp) as [Ht _]. congruence.
Qed.

Lemma stop_t_lookup s (id : nat) :
  inv s -> t s = Some id ->
  exists tm : Timer,
    match t s with Some id0 => Stop id0 (timers s) | None => timers s end !! id = Some tm.
Proof.
  intros Hi Et. destruct (inv_t s Hi id Et) as (tm & Hl & _).
  rewrite Et. rewrite (Stop_lookup_eq _ _ _ Hl). eauto.
Qed.

Lemma inv_decay_recv s i :
  inv s -> running s = true -> i = 1 \/ i = -1 -> inv (decay_recv i s).
Proof.
  intros Hi Hr Hu. unfold decay_recv.
  destruct (GoInt.add (cnt s) i =? 0) eqn:E.
  - apply Z.eqb_eq in E. unfold AfterFunc.
    constructor; simpl.
    + intros Hf. congruence.
    + apply wrap_in_range.
    + intros id tm Hl Hp.
      destruct (decide (id < length (timers s))%nat) as [Hlt|Hge].
      * rewrite lookup_app_l in Hl by assumption.
        destruct (inv_pending s Hi id tm Hl Hp) as (_ & Hc & _).
        apply add_unit_zero in E; [|apply Hi|assumption]. lia.
      * assert (id = length (timers s)) as ->.
        { apply lookup_lt_Some in Hl. rewrite length_app in Hl. simpl in Hl. lia. }
        auto.
    + intros id Hid. inversion Hid; subst id.
      eexists. split.
      * rewrite lookup_app_r by lia. rewrite Nat.sub_diag. reflexivity.
      * simpl. discriminate.
  - apply Z.eqb_neq in E.
    constructor; simpl.
    + intros Hf. congruence.
    + apply wrap_in_range.
    + intros id tm Hl Hp. exfalso. eapply stop_t_no_pending; eassumption.
    + intros id Hid. destruct (stop_t_lookup s id Hi Hid) as [tm Hl].
      exists tm. split; [assumption | intros Hc; contradiction].
Qed.

Lemma inv_decay_cancel s : inv s -> ctx_done s = true -> inv (decay_cancel s).
Proof.
  intros Hi Hc. constructor; simpl.
  - auto.
  - apply Hi.
  - intros id tm Hl Hp. exfalso. eapply stop_t_no_pending; eassumption.
  - intros id Hid. destruct (stop_t_lookup s id Hi Hid) as [tm Hl].
    exists tm. split; [assumption | discriminate].
Qed.

Lemma inv_Shutdown s : inv s -> inv (Shutdown s).
Proof. intros Hi. constructor; simpl; try apply Hi. reflexivity. Qed.

Lemma inv_send s s' i : inv s -> i = 1 \/ i = -1 -> send i s = Some s' -> inv s'.
Proof.
  unfold send. intros Hi Hu Hs.
  destruct (ctx_done s); [congruence|].
  destruct (running s) eqn:Hr; [|discriminate].
  inversion Hs; subst s'. now apply inv_decay_recv.
Qed.

(** A timer whose status moves to [Expired] or [Ran]. *)
Lemma inv_fired s (id : nat) (tm : Timer) (st : timer_status) (h : H) :
  inv s -> timers s !! id = Some tm -> st = Expired \/ st = Ran ->
  inv (set_hist h (set_timers (<[id := set_status st tm]> (timers s)) s)).
Proof.
  intros Hi Hl Hst. constructor; simpl.
  - apply Hi.
  - apply Hi.
  - intros j tm' Hl' Hp. destruct (decide (id = j)) as [->|Hne].
    + rewrite list_lookup_insert_eq in Hl' by (eapply lookup_lt_Some; eassumption).
      inversion Hl'; subst tm'. simpl in Hp. destruct Hst; congruence.
    + rewrite list_lookup_insert_ne in Hl' by assumption.
      eapply inv_pending; eassumption.
  - intros j Hj. destruct (decide (id = j)) as [->|Hne].
    + eexists. split.
      * apply list_lookup_insert_eq. eapply lookup_lt_Some; eassumption.
      * simpl. destruct Hst; congruence.
    + rewrite list_lookup_insert_ne by assumption. eapply inv_t; eassumption.
Qed.

Lemma inv_step s s' e : inv s -> step e s = Some s' -> inv s'.
Proof.
  intros Hi Hs. destruct e; simpl in Hs.
  - eapply inv_send; [eassumption | | exact Hs]. now left.
  - eapply inv_send; [eassumption | | exact Hs]. now right.
  - inversion Hs; subst s'. now apply inv_Shutdown.
  - inversion Hs; subst s'. constructor; simpl; apply Hi.
  - destruct (ctx_done s) eqn:Hc; [|discriminate].
    destruct (running s); [|discriminate].
    inversion Hs; subst s'. now apply inv_decay_cancel.
  - destruct (0 <=? d); [|discriminate].
    inversion Hs; subst s'. constructor; simpl; apply Hi.
  - destruct (timers s !! id) as [tm|] eqn:Hl; [|discriminate].
    destruct (is_pending tm && (when tm <=? now s)); [|discriminate].
    inversion Hs; subst s'.
    change (set_timers (<[id:=set_status Expired tm]> (timers s)) s)
      with (set_hist (hist s) (set_timers (<[id:=set_status Expired tm]> (timers s)) s)).
    apply inv_fired; auto.
  - destruct (timers s !! id) as [tm|] eqn:Hl; [|discriminate].
    destruct (timer_status_eqb (status tm) Expired); [|discriminate].
    inversion Hs; subst s'. apply inv_fired; auto.
Qed.

Lemma inv_run (evs : list event) s s' : inv s -> run evs s = Some s' -> inv s'.
Proof.
  revert s. induction evs as [|e evs IH]; simpl; intros s Hi Hr.
  - inversion Hr; subst s'. assumption.
  - destruct (step e s) as [s1|] eqn:Hs; [|discriminate].
    eapply IH; [|eassumption]. eapply inv_step; eassumption.
Qed.

Lemma inv_reachable s : reachable s -> inv s.
Proof.
  intros (histogram & d & evs & Hr). eapply inv_run; [|eassumption]. apply inv_New.
Qed.

End Invariant.

(** * Properties of the coordinator *)

(** ** The arming invariant *)

(** C1, as stated, fails in the initial state: right after
    [NewSelfCleaningHistogram] returns the counter is zero and [decay] runs,
    yet [t] is nil and no timer is armed. *)
Lemma initial_state_not_armed :
  reachable (NewSelfCleaningHistogram ([] : list Z) (150 * Millisecond)) /\
  ~ armed_iff_idle (NewSelfCleaningHistogram ([] : list Z) (150 * Millisecond)).
Proof.
  split.
  - exists [], (150 * Millisecond), []. reflexivity.
  - unfold armed_iff_idle. intros [_ Hback].
    specialize (Hback (conj eq_refl eq_refl)). discriminate Hback.
Qed.

(** C1, amended: in every reachable state the idle timer is armed if and
    only if the counter is exactly zero, [decay] has not shut down, and the
    timer [t] points to exists (some accepted delta has brought the counter
    to zero) and has not expired yet. *)
Theorem armed_iff_idle_unexpired {H : Type} `{Histogram H} (s : state H) :
  reachable s ->
  (armed s = true <-> cnt s = 0 /\ running s = true /\ unexpired s).
Proof.
  intros Hre. apply inv_reachable in Hre. unfold unexpired, t_status. split.
  - intros Ha. apply armed_true in Ha. destruct Ha as (id & tm & Hl & Hp).
    destruct (inv_pending s Hre id tm Hl Hp) as (Ht & Hc & Hr).
    repeat split; try assumption.
    exists Pending. rewrite Ht, Hl. simpl. rewrite Hp.
    repeat split; discriminate.
  - intros (Hc & Hr & st & Hst & Hne & Hnr).
    destruct (t s) as [id|] eqn:Et; [|discriminate].
    destruct (inv_t s Hre id Et) as (tm & Hl & Hns).
    rewrite Hl in Hst. simpl in Hst. inversion Hst; subst st.
    apply armed_true. exists id, tm. split; [assumption|].
    specialize (Hns Hc Hr). destruct (status tm); congruence.
Qed.

Lemma armed_iff_idle_unexpired_witness :
  reachable (decay_recv (-1) (decay_recv 1
     (NewSelfCleaningHistogram ([] : list Z) (150 * Millisecond)))) /\
  armed (decay_recv (-1) (decay_recv 1
     (NewSelfCleaningHistogram ([] : list Z) (150 * Millisecond)))) = true.
Proof.
  assert (Hre : reachable (decay_recv (-1) (decay_recv 1
     (NewSelfCleaningHistogram ([] : list Z) (150 * Millisecond))))).
  { exists [], (150 * Millisecond), [CallRegister; CallDone]. reflexivity. }
  split; [exact Hre|].
  apply (armed_iff_idle_unexpired _ Hre).
  split; [reflexivity|]. split; [reflexivity|].
  exists Pending. split; [reflexivity|]. split; discriminate.
Defined.

(** ** What an accepted delta does *)

Lemma lookup_snoc (l : list Timer) (x : Timer) : (l ++ [x]) !! length l = Some x.
Proof. induction l as [|y l IH]; simpl; [reflexivity | exact IH]. Qed.

Lemma insert_snoc (l : list Timer) (x y : Timer) :
  <[length l := y]> (l ++ [x]) = l ++ [y].
Proof. induction l as [|z l IH]; simpl; [reflexivity | now rewrite IH]. Qed.

(** The life of a freshly armed timer: it cannot expire before its delay has
    gone by; from then on it can, its goroutine then clears the histogram,
    and that is the end of it. *)
Lemma fresh_timer_fires {H : Type} `{Histogram H} (s : state H) (l : list Timer) (w : Z) :
  timers s = l ++ [ {| when := w; status := Pending |} ] ->
  (forall e : Z, 0 <= e -> now s + e < w ->
     run [Elapse e; TimerExpire (length l)] s = None) /\
  (forall e : Z, 0 <= e -> w <= now s + e ->
     exists s3 : state H,
       run [Elapse e; TimerExpire (length l); TimerRun (length l)] s = Some s3 /\
       hist s3 = Clear (hist s) /\
       cnt s3 = cnt s /\
       step (TimerExpire (length l)) s3 = None /\
       step (TimerRun (length l)) s3 = None).
Proof.
  intros Ht. split; intros e He Hw.
  - simpl. apply Z.leb_le in He. rewrite He. simpl.
    rewrite Ht, lookup_snoc. simpl.
    assert ((w <=? now s + e) = false) as -> by (apply Z.leb_gt; lia).
    reflexivity.
  - simpl. apply Z.leb_le in He. rewrite He. simpl.
    rewrite Ht, lookup_snoc. simpl.
    assert ((w <=? now s + e) = true) as -> by (apply Z.leb_le; lia).
    simpl. rewrite insert_snoc, lookup_snoc. simpl.
    eexists. split; [reflexivity|]. simpl.
    rewrite !insert_snoc, !lookup_snoc. simpl. auto.
Qed.

(** C2: an accepted delta is added to the counter.  If the result is zero, a
    one-shot timer is armed by [time.AfterFunc] for the configured delay: its
    instant is the clock plus the delay (the clock itself for a delay that is
    not positive, [MaxInt64] when the sum overflows), it cannot expire before
    that instant, from then on it can, its firing clears the wrapped
    histogram, and it fires once.  If the result is not zero and the timer
    [t] points to is pending, that timer is stopped. *)
Theorem accepted_delta_arms_or_stops {H : Type} `{Histogram H} (s : state H) (d : delta) :
  ctx_done s = false -> running s = true ->
  exists s' : state H,
    step (delta_event d) s = Some s' /\
    s' = decay_recv (delta_value d) s /\
    cnt s' = GoInt.add (cnt s) (delta_value d) /\
    hist s' = hist s /\
    (cnt s' = 0 ->
       t s' = Some (length (timers s)) /\
       timers s' = timers s ++
         [ {| when := when_after (now s) (delay s); status := Pending |} ] /\
       (delay s <= 0 -> when_after (now s) (delay s) = now s) /\
       (0 < delay s -> 0 <= now s -> now s + delay s <= MaxInt64 ->
          when_after (now s) (delay s) = now s + delay s) /\
       (0 < delay s <= MaxInt64 -> 0 <= now s <= MaxInt64 ->
          MaxInt64 < now s + delay s ->
          when_after (now s) (delay s) = MaxInt64) /\
       (forall e : Z, 0 <= e -> now s + e < when_after (now s) (delay s) ->
          run [Elapse e; TimerExpire (length (timers s))] s' = None) /\
       (forall e : Z, 0 <= e -> when_after (now s) (delay s) <= now s + e ->
          exists s3 : state H,
            run [Elapse e; TimerExpire (length (timers s)); TimerRun (length (timers s))] s'
              = Some s3 /\
            hist s3 = Clear (hist s) /\
            step (TimerExpire (length (timers s))) s3 = None /\
            step (TimerRun (length (timers s))) s3 = None)) /\
    (cnt s' <> 0 ->
       t s' = t s /\
       (forall (id : nat) (tm : Timer),
          t s = Some id -> timers s !! id = Some tm -> status tm = Pending ->
          timers s' = <[id := set_status Stopped tm]> (timers s)) /\
       (t s = None -> timers s' = timers s)).
Proof.
  intros Hc Hr. exists (decay_recv (delta_value d) s).
  split.
  { destruct d; simpl; unfold Register, Done, send; rewrite Hc, Hr; reflexivity. }
  split; [reflexivity|].
  unfold decay_recv.
  destruct (GoInt.add (cnt s) (delta_value d) =? 0) eqn:E; simpl.
  - split; [reflexivity|]. split; [reflexivity|]. split.
    + intros _. split; [reflexivity|]. split; [reflexivity|].
      split; [apply when_after_nonpos|].
      split; [apply when_after_exact|].
      split; [apply when_after_saturated|].
      set (s1 := {| hist := hist s; ctx_done := ctx_done s; delay := delay s;
                    t := Some (length (timers s));
                    cnt := GoInt.add (cnt s) (delta_value d);
                    running := running s;
                    timers := timers s ++
                      [ {| when := when_after (now s) (delay s); status := Pending |} ];
                    now := now s |}).
      destruct (fresh_timer_fires s1 (timers s) (when_after (now s) (delay s)) eq_refl)
        as [Hno Hyes].
      split.
      * intros e He Hlt. apply Hno; simpl; lia.
      * intros e He Hd. destruct (Hyes e He) as (s3 & Hrun & Hh & _ & Hx & Hy).
        { simpl. lia. }
        exists s3. auto.
    + intros Hne. apply Z.eqb_eq in E. contradiction.
  - split; [reflexivity|]. split; [reflexivity|]. split.
    + intros Hz. apply Z.eqb_neq in E. contradiction.
    + intros _. split; [reflexivity|]. split.
      * intros id tm Ht Hl Hp. rewrite Ht. unfold Stop. rewrite Hl.
        apply is_pending_true in Hp. rewrite Hp. reflexivity.
      * intros Ht. rewrite Ht. reflexivity.
Qed.

Lemma accepted_delta_arms_or_stops_witness :
  exists s' : state (list Z),
    step CallDone (decay_recv 1 (NewSelfCleaningHistogram [] (150 * Millisecond))) = Some s' /\
    cnt s' = 0.
Proof.
  destruct (accepted_delta_arms_or_stops
              (decay_recv 1 (NewSelfCleaningHistogram ([] : list Z) (150 * Millisecond)))
              Don eq_refl eq_refl) as (s' & Hstep & Heq & _).
  exists s'. split; [exact Hstep|]. rewrite Heq. reflexivity.
Defined.

(** ** Shutdown *)

Section AfterShutdown.

Context {H : Type} `{Histogram H}.

Implicit Types (s : state H) (e : event).

(** Nothing reopens [ctx.Done()]. *)
Lemma ctx_done_step s s' e : ctx_done s = true -> step e s = Some s' -> ctx_done s' = true.
Proof.
  intros Hc Hs. destruct e; simpl in Hs.
  - unfold Register, send in Hs. rewrite Hc in Hs. congruence.
  - unfold Done, send in Hs. rewrite Hc in Hs. congruence.
  - inversion Hs; reflexivity.
  - inversion Hs; subst s'. exact Hc.
  - destruct (ctx_done s && running s); inversion Hs; subst s'. exact Hc.
  - destruct (0 <=? d); inversion Hs; subst s'. exact Hc.
  - destruct (timers s !! id) as [tm|]; [|discriminate].
    destruct (is_pending tm && (when tm <=? now s)); inversion Hs; subst s'. exact Hc.
  - destruct (timers s !! id) as [tm|]; [|discriminate].
    destruct (timer_status_eqb (status tm) Expired); inversion Hs; subst s'. exact Hc.
Qed.

Lemma ctx_done_run (evs : list event) s s' :
  ctx_done s = true -> run evs s = Some s' -> ctx_done s' = true.
Proof.
  revert s. induction evs as [|e evs IH]; simpl; intros s Hc Hr.
  - congruence.
  - destruct (step e s) as [s1|] eqn:Hs; [|discriminate].
    eapply IH; [|eassumption]. eapply ctx_done_step; eassumption.
Qed.

Lemma Shutdown_id s : ctx_done s = true -> Shutdown s = s.
Proof. intros Hc. destruct s; simpl in *. subst. reflexivity. Qed.

Lemma send_after_cancel s (i : Z) : ctx_done s = true -> send i s = Some s.
Proof. intros Hc. unfold send. now rewrite Hc. Qed.

(** In a reachable state a call of [Register] or [Done] returns. *)
Lemma send_returns s (i : Z) : inv s -> exists s', send i s = Some s'.
Proof.
  intros Hi. unfold send. destruct (ctx_done s) eqn:Hc; [eauto|].
  destruct (running s) eqn:Hr; [eauto|].
  rewrite (inv_ctx s Hi Hr) in Hc. discriminate.
Qed.

End AfterShutdown.

(** C3: [Shutdown] is idempotent, and once it has taken effect every call of
    [Register] or [Done] returns at once and changes nothing: a second
    [Shutdown] right after the first, or at any later point of any run,
    leaves the state as it is, and so do [Register] and [Done] there. *)
Theorem Shutdown_idempotent {H : Type} `{Histogram H} (s : state H) :
  Shutdown (Shutdown s) = Shutdown s /\
  step CallShutdown (Shutdown s) = Some (Shutdown s) /\
  (forall (evs : list event) (s' : state H),
     run evs (Shutdown s) = Some s' ->
     step CallShutdown s' = Some s' /\
     Register s' = Some s' /\
     Done s' = Some s' /\
     step CallRegister s' = Some s' /\
     step CallDone s' = Some s').
Proof.
  split; [reflexivity|]. split; [reflexivity|].
  intros evs s' Hr.
  assert (Hc : ctx_done s' = true) by (eapply ctx_done_run; [|eassumption]; reflexivity).
  simpl. rewrite (Shutdown_id s' Hc).
  unfold Register, Done. rewrite !send_after_cancel by assumption. auto.
Qed.

(** ** After [decay] has taken the cancellation *)

Lemma in_flight_false {H : Type} (s : state H) :
  in_flight s = false <->
  forall (id : nat) (tm : Timer), timers s !! id = Some tm -> status tm <> Expired.
Proof.
  unfold in_flight. split.
  - intros Hf id tm Hl He.
    assert (existsb (fun tm => timer_status_eqb (status tm) Expired) (timers s) = true).
    { apply existsb_exists. exists tm. split.
      - apply list_elem_of_In, list_elem_of_lookup. now exists id.
      - rewrite He. reflexivity. }
    congruence.
  - intros Hall.
    destruct (existsb _ (timers s)) eqn:E; [|reflexivity].
    apply existsb_exists in E. destruct E as (tm & Hin & He).
    apply list_elem_of_In, list_elem_of_lookup in Hin. destruct Hin as [id Hl].
    exfalso. apply (Hall id tm Hl). destruct (status tm); simpl in He; congruence.
Qed.

Section Frozen.

Context {H : Type} `{Histogram H}.

Implicit Types (s : state H) (e : event).

Lemma stopped_not_armed s : inv s -> running s = false -> armed s = false.
Proof.
  intros Hi Hr. apply armed_false. intros id tm Hl Hp.
  destruct (inv_pending s Hi id tm Hl Hp) as (_ & _ & Hrun). congruence.
Qed.

Lemma stopped_no_expiry s (id : nat) :
  inv s -> running s = false -> step (TimerExpire id) s = None.
Proof.
  intros Hi Hr. simpl. destruct (timers s !! id) as [tm|] eqn:Hl; [|reflexivity].
  destruct (is_pending tm) eqn:Hp; [|reflexivity].
  apply is_pending_true in Hp.
  destruct (inv_pending s Hi id tm Hl Hp) as (_ & _ & Hrun). congruence.
Qed.

Lemma idle_no_run s (id : nat) : in_flight s = false -> step (TimerRun id) s = None.
Proof.
  intros Hf. simpl. destruct (timers s !! id) as [tm|] eqn:Hl; [|reflexivity].
  destruct (timer_status_eqb (status tm) Expired) eqn:He; [|reflexivity].
  exfalso. apply (proj1 (in_flight_false s) Hf id tm Hl).
  destruct (status tm); simpl in He; congruence.
Qed.

(** One step after [decay] has returned: it stays returned, and with no
    clearing goroutine left the timers stay as they are and the samples
    change only through [Update]. *)
Lemma stopped_step s s' e :
  inv s -> running s = false -> step e s = Some s' ->
  running s' = false /\
  (in_flight s = false ->
   timers s' = timers s /\ (is_update e = false -> hist s' = hist s)).
Proof.
  intros Hi Hr Hs.
  pose proof (inv_ctx s Hi Hr) as Hc.
  destruct e.
  - simpl in Hs. unfold Register in Hs. rewrite send_after_cancel in Hs by assumption.
    inversion Hs; subst s'. auto.
  - simpl in Hs. unfold Done in Hs. rewrite send_after_cancel in Hs by assumption.
    inversion Hs; subst s'. auto.
  - simpl in Hs. inversion Hs; subst s'. simpl. auto.
  - simpl in Hs. inversion Hs; subst s'. simpl. split; [assumption|].
    intros _. split; [reflexivity | discriminate].
  - simpl in Hs. rewrite Hr, andb_false_r in Hs. discriminate.
  - simpl in Hs. destruct (0 <=? d); inversion Hs; subst s'. simpl. auto.
  - rewrite stopped_no_expiry in Hs by assumption. discriminate.
  - split.
    + simpl in Hs. destruct (timers s !! id) as [tm|]; [|discriminate].
      destruct (timer_status_eqb (status tm) Expired); inversion Hs; subst s'.
      exact Hr.
    + intros Hf. rewrite idle_no_run in Hs by assumption. discriminate.
Qed.

Lemma stopped_run (evs : list event) s s' :
  inv s -> running s = false -> run evs s = Some s' ->
  inv s' /\ running s' = false /\
  (in_flight s = false ->
   timers s' = timers s /\
   (forallb (fun e => negb (is_update e)) evs = true -> hist s' = hist s)).
Proof.
  revert s. induction evs as [|e evs IH]; simpl; intros s Hi Hr Hrun.
  - inversion Hrun; subst s'. auto.
  - destruct (step e s) as [s1|] eqn:Hs; [|discriminate].
    pose proof (inv_step s s1 e Hi Hs) as Hi1.
    destruct (stopped_step s s1 e Hi Hr Hs) as [Hr1 Hkeep].
    destruct (IH s1 Hi1 Hr1 Hrun) as (Hi' & Hr' & Hkeep').
    split; [assumption|]. split; [assumption|].
    intros Hf. destruct (Hkeep Hf) as [Ht Hh].
    assert (Hf1 : in_flight s1 = false).
    { unfold in_flight in *. rewrite Ht. exact Hf. }
    destruct (Hkeep' Hf1) as [Ht' Hh'].
    split; [congruence|].
    intros Hall. apply andb_true_iff in Hall. destruct Hall as [He Hall].
    apply negb_true_iff in He. rewrite (Hh' Hall). auto.
Qed.

(** After [decay] has returned a timer awaits its goroutine only if it
    already did before. *)
Lemma stopped_step_expired s s' e (j : nat) (tm : Timer) :
  inv s -> running s = false -> step e s = Some s' ->
  timers s' !! j = Some tm -> status tm = Expired -> timers s !! j = Some tm.
Proof.
  intros Hi Hr Hs Hl He.
  pose proof (inv_ctx s Hi Hr) as Hc.
  destruct e.
  - simpl in Hs. unfold Register in Hs. rewrite send_after_cancel in Hs by assumption.
    congruence.
  - simpl in Hs. unfold Done in Hs. rewrite send_after_cancel in Hs by assumption.
    congruence.
  - simpl in Hs. inversion Hs; subst s'. exact Hl.
  - simpl in Hs. inversion Hs; subst s'. exact Hl.
  - simpl in Hs. rewrite Hr, andb_false_r in Hs. discriminate.
  - simpl in Hs. destruct (0 <=? d); inversion Hs; subst s'. exact Hl.
  - rewrite stopped_no_expiry in Hs by assumption. discriminate.
  - simpl in Hs. destruct (timers s !! id) as [tm0|] eqn:Hl0; [|discriminate].
    destruct (timer_status_eqb (status tm0) Expired); inversion Hs; subst s'.
    simpl in Hl. destruct (decide (id = j)) as [->|Hne].
    + rewrite list_lookup_insert_eq in Hl by (eapply lookup_lt_Some; eassumption).
      inversion Hl; subst tm. discriminate He.
    + now rewrite list_lookup_insert_ne in Hl by assumption.
Qed.

Lemma stopped_run_expired (evs : list event) s s' (j : nat) (tm : Timer) :
  inv s -> running s = false -> run evs s = Some s' ->
  timers s' !! j = Some tm -> status tm = Expired -> timers s !! j = Some tm.
Proof.
  revert s. induction evs as [|e evs IH]; simpl; intros s Hi Hr Hrun Hl He.
  - congruence.
  - destruct (step e s) as [s1|] eqn:Hs; [|discriminate].
    pose proof (inv_step s s1 e Hi Hs) as Hi1.
    destruct (stopped_step s s1 e Hi Hr Hs) as [Hr1 _].
    eapply stopped_step_expired; eauto.
Qed.

End Frozen.

(** C4, as stated, fails when a timer expired just before the cancellation
    was processed: its goroutine was started, [Stop] comes too late for it,
    and the sample present at shutdown is cleared afterwards. *)
Lemma cleared_after_shutdown :
  exists s s' : state (list Z),
    run [CallRegister; CallUpdate 5; CallDone; Elapse (150 * Millisecond);
         TimerExpire 0; CallShutdown; DecayCancel]
        (NewSelfCleaningHistogram [] (150 * Millisecond)) = Some s /\
    running s = false /\
    hist s = [5] /\
    run [Elapse (300 * Millisecond); TimerRun 0] s = Some s' /\
    hist s' = [] /\
    ~ samples_frozen s.
Proof.
  eexists. eexists.
  split; [reflexivity|]. split; [reflexivity|]. split; [reflexivity|].
  split; [reflexivity|]. split; [reflexivity|].
  intros Hfrozen.
  specialize (Hfrozen [Elapse (300 * Millisecond); TimerRun 0] _ eq_refl eq_refl).
  discriminate Hfrozen.
Qed.

(** C4, amended: once [decay] has processed the cancellation signal no timer
    can expire any more, however much time goes by, and a repeated
    [Shutdown] is a no-op; the only clearing that can still happen is that of
    a timer that had already expired when the signal was processed, and if
    there is none the samples present at shutdown persist unchanged. *)
Theorem no_expiry_after_shutdown {H : Type} `{Histogram H} (s : state H) :
  reachable s -> running s = false ->
  Shutdown s = s /\
  (forall (evs : list event) (s' : state H),
     run evs s = Some s' ->
     running s' = false /\ armed s' = false /\ Shutdown s' = s' /\
     (forall id : nat, step (TimerExpire id) s' = None) /\
     (forall (id : nat) (s'' : state H),
        step (TimerRun id) s' = Some s'' ->
        exists tm : Timer, timers s !! id = Some tm /\ status tm = Expired)) /\
  (in_flight s = false ->
     samples_frozen s /\
     (forall (evs : list event) (s' : state H),
        run evs s = Some s' -> forall id : nat, step (TimerRun id) s' = None)).
Proof.
  intros Hre Hr. apply inv_reachable in Hre.
  split; [apply Shutdown_id, (inv_ctx s Hre Hr)|]. split.
  - intros evs s' Hrun.
    destruct (stopped_run evs s s' Hre Hr Hrun) as (Hi' & Hr' & _).
    split; [assumption|]. split; [now apply stopped_not_armed|].
    split; [apply Shutdown_id, (inv_ctx s' Hi' Hr')|].
    split; [intros id; now apply stopped_no_expiry|].
    intros id s'' Hs. simpl in Hs.
    destruct (timers s' !! id) as [tm|] eqn:Hl; [|discriminate].
    destruct (timer_status_eqb (status tm) Expired) eqn:He; [|discriminate].
    assert (Hst : status tm = Expired) by (destruct (status tm); simpl in He; congruence).
    exists tm. split; [|assumption].
    eapply stopped_run_expired; eassumption.
  - intros Hf. split.
    + intros evs s' Hall Hrun.
      destruct (stopped_run evs s s' Hre Hr Hrun) as (_ & _ & Hkeep).
      now apply Hkeep.
    + intros evs s' Hrun id.
      destruct (stopped_run evs s s' Hre Hr Hrun) as (_ & _ & Hkeep).
      apply idle_no_run. unfold in_flight in *.
      destruct (Hkeep Hf) as [-> _]. exact Hf.
Qed.

Lemma no_expiry_after_shutdown_witness :
  exists s s' : state (list Z),
    run [CallRegister; CallUpdate 5; CallDone; CallShutdown; DecayCancel]
        (NewSelfCleaningHistogram [] (100 * Millisecond)) = Some s /\
    run [Elapse (300 * Millisecond); CallShutdown] s = Some s' /\
    hist s' = [5] /\ step (TimerExpire 0) s' = None.
Proof.
  eexists. eexists. split; [reflexivity|]. split; [reflexivity|].
  destruct (no_expiry_after_shutdown
              (decay_cancel (Shutdown (decay_recv (-1) (set_hist [5]
                 (decay_recv 1 (NewSelfCleaningHistogram ([] : list Z)
                                  (100 * Millisecond)))))))) as (_ & Hno & Hfrozen).
  - exists [], (100 * Millisecond),
      [CallRegister; CallUpdate 5; CallDone; CallShutdown; DecayCancel].
    reflexivity.
  - reflexivity.
  - split.
    + destruct (Hfrozen eq_refl) as [Hsame _].
      apply (Hsame [Elapse (300 * Millisecond); CallShutdown] _ eq_refl eq_refl).
    + apply (Hno [Elapse (300 * Millisecond); CallShutdown] _ eq_refl).
Defined.

(** ** Sequences of accepted deltas *)

Section Deliver.

Context {H : Type} `{Histogram H}.

Implicit Types (s : state H) (ds : list delta) (i : Z).

Lemma cnt_decay_recv s i : cnt (decay_recv i s) = GoInt.add (cnt s) i.
Proof. unfold decay_recv. destruct (GoInt.add (cnt s) i =? 0); reflexivity. Qed.

Lemma flags_decay_recv s i :
  ctx_done (decay_recv i s) = ctx_done s /\ running (decay_recv i s) = running s /\
  hist (decay_recv i s) = hist s /\ delay (decay_recv i s) = delay s /\
  now (decay_recv i s) = now s.
Proof. unfold decay_recv. destruct (GoInt.add (cnt s) i =? 0); simpl; auto. Qed.

Lemma delta_value_unit (d : delta) : delta_value d = 1 \/ delta_value d = -1.
Proof. destruct d; simpl; auto. Qed.

Lemma deliver_cons (d : delta) ds s :
  deliver (d :: ds) s = deliver ds (decay_recv (delta_value d) s).
Proof. reflexivity. Qed.

Lemma deliver_app ds1 ds2 s : deliver (ds1 ++ ds2) s = deliver ds2 (deliver ds1 s).
Proof. unfold deliver. apply fold_left_app. Qed.

Lemma flags_deliver ds s :
  ctx_done (deliver ds s) = ctx_done s /\ running (deliver ds s) = running s.
Proof.
  revert s. induction ds as [|d ds IH]; intros s; [auto|].
  rewrite deliver_cons. destruct (IH (decay_recv (delta_value d) s)) as [-> ->].
  destruct (flags_decay_recv s (delta_value d)) as (Hc & Hr & _). auto.
Qed.

(** As long as [Shutdown] has not been called every call is accepted: the
    calls of a sequence are the deltas [decay] receives. *)
Lemma run_deliver ds s :
  ctx_done s = false -> running s = true ->
  run (map delta_event ds) s = Some (deliver ds s).
Proof.
  revert s. induction ds as [|d ds IH]; intros s Hc Hr; [reflexivity|].
  rewrite deliver_cons. simpl.
  assert (step (delta_event d) s = Some (decay_recv (delta_value d) s)) as ->.
  { destruct d; simpl; unfold Register, Done, send; now rewrite Hc, Hr. }
  destruct (flags_decay_recv s (delta_value d)) as (Hc' & Hr' & _).
  apply IH; congruence.
Qed.

Lemma inv_deliver ds s : inv s -> running s = true -> inv (deliver ds s).
Proof.
  revert s. induction ds as [|d ds IH]; intros s Hi Hr; [assumption|].
  rewrite deliver_cons. apply IH.
  - apply inv_decay_recv; [assumption | assumption | apply delta_value_unit].
  - destruct (flags_decay_recv s (delta_value d)) as (_ & Hr' & _). congruence.
Qed.

(** The counter is the sum of the deltas, in [int] arithmetic. *)
Lemma cnt_deliver ds s :
  GoInt.in_range (cnt s) ->
  cnt (deliver ds s) = GoInt.wrap (cnt s + (registers ds - dones ds)).
Proof.
  revert s. induction ds as [|d ds IH]; intros s Hr.
  - simpl. rewrite Z.add_0_r. symmetry. now apply wrap_small.
  - rewrite deliver_cons, IH by (rewrite cnt_decay_recv; apply wrap_in_range).
    rewrite cnt_decay_recv. unfold GoInt.add. rewrite wrap_add_l.
    f_equal. destruct d; simpl; lia.
Qed.

(** Right after a delta the timer is armed exactly if the counter is zero. *)
Lemma armed_decay_recv s i :
  inv s -> armed (decay_recv i s) = (cnt (decay_recv i s) =? 0).
Proof.
  intros Hi. unfold decay_recv.
  destruct (GoInt.add (cnt s) i =? 0) eqn:E; unfold armed; simpl.
  - rewrite E, existsb_app. simpl. apply orb_true_r.
  - rewrite E.
    destruct (existsb is_pending _) eqn:Ex; [|reflexivity].
    apply existsb_exists in Ex. destruct Ex as (tm & Hin & Hp).
    apply list_elem_of_In, list_elem_of_lookup in Hin. destruct Hin as [id Hl].
    apply is_pending_true in Hp.
    exfalso. eapply stop_t_no_pending; eassumption.
Qed.

Lemma nonzero_not_armed s : inv s -> cnt s <> 0 -> armed s = false.
Proof.
  intros Hi Hc. apply armed_false. intros id tm Hl Hp.
  destruct (inv_pending s Hi id tm Hl Hp) as (_ & Hz & _). contradiction.
Qed.

Lemma registers_repeat (k : nat) : registers (repeat Reg k) = Z.of_nat k.
Proof. induction k as [|k IH]; [reflexivity|]. simpl repeat. simpl registers. lia. Qed.

Lemma dones_repeat (k : nat) : dones (repeat Reg k) = 0.
Proof. induction k as [|k IH]; [reflexivity | exact IH]. Qed.

Lemma registers_perm ds ds' : Permutation ds ds' -> registers ds = registers ds'.
Proof.
  induction 1 as [|d l l' _ IH|d1 d2 l|l1 l2 l3 _ IH1 _ IH2].
  - reflexivity.
  - destruct d; simpl; lia.
  - destruct d1, d2; simpl; lia.
  - congruence.
Qed.

Lemma dones_perm ds ds' : Permutation ds ds' -> dones ds = dones ds'.
Proof.
  induction 1 as [|d l l' _ IH|d1 d2 l|l1 l2 l3 _ IH1 _ IH2].
  - reflexivity.
  - destruct d; simpl; lia.
  - destruct d1, d2; simpl; lia.
  - congruence.
Qed.

End Deliver.

(** ** The counter along a run *)

Section Counter.

Context {H : Type} `{Histogram H}.

Implicit Types (s : state H) (e : event).

(** After [Shutdown] the counter does not move. *)
Lemma cnt_cancelled_step s s' e :
  ctx_done s = true -> step e s = Some s' -> cnt s' = cnt s.
Proof.
  intros Hc Hs. destruct e; simpl in Hs.
  - unfold Register in Hs. rewrite send_after_cancel in Hs by assumption. congruence.
  - unfold Done in Hs. rewrite send_after_cancel in Hs by assumption. congruence.
  - inversion Hs; reflexivity.
  - inversion Hs; reflexivity.
  - destruct (ctx_done s && running s); inversion Hs; reflexivity.
  - destruct (0 <=? d); inversion Hs; reflexivity.
  - destruct (timers s !! id) as [tm|]; [|discriminate].
    destruct (is_pending tm && (when tm <=? now s)); inversion Hs; reflexivity.
  - destruct (timers s !! id) as [tm|]; [|discriminate].
    destruct (timer_status_eqb (status tm) Expired); inversion Hs; reflexivity.
Qed.

Lemma cnt_cancelled_run (evs : list event) s s' :
  ctx_done s = true -> run evs s = Some s' -> cnt s' = cnt s.
Proof.
  revert s. induction evs as [|e evs IH]; simpl; intros s Hc Hr.
  - congruence.
  - destruct (step e s) as [s1|] eqn:Hs; [|discriminate].
    rewrite (IH s1 (ctx_done_step s s1 e Hc Hs) Hr).
    eapply cnt_cancelled_step; eassumption.
Qed.

(** Whatever else happens in between, the counter is the sum of the accepted
    deltas, in [int] arithmetic. *)
Local Ltac same_counter :=
  match goal with
  | IH : forall s, _ -> _ -> run _ s = _ -> _, Hc : ctx_done _ = false,
    Hin : GoInt.in_range _, Hr : run _ ?x = Some _ |- _ =>
      rewrite (IH x Hc Hin Hr)
  end.

Lemma cnt_run (evs : list event) s s' :
  ctx_done s = false -> GoInt.in_range (cnt s) -> run evs s = Some s' ->
  cnt s' = GoInt.wrap (cnt s + (registers (accepted evs) - dones (accepted evs))).
Proof.
  revert s. induction evs as [|e evs IH]; simpl; intros s Hc Hin Hr.
  - inversion Hr; subst s'. rewrite Z.add_0_r. symmetry. now apply wrap_small.
  - destruct (step e s) as [s1|] eqn:Hs; [|discriminate].
    destruct e; simpl in Hs.
    + unfold Register, send in Hs. rewrite Hc in Hs.
      destruct (running s); inversion Hs; subst s1.
      destruct (flags_decay_recv s 1) as (Hc1 & _). rewrite Hc in Hc1.
      assert (Hin1 : GoInt.in_range (cnt (decay_recv 1 s)))
        by (rewrite cnt_decay_recv; apply wrap_in_range).
      rewrite (IH _ Hc1 Hin1 Hr).
      rewrite cnt_decay_recv. unfold GoInt.add. rewrite wrap_add_l.
      f_equal. simpl. lia.
    + unfold Done, send in Hs. rewrite Hc in Hs.
      destruct (running s); inversion Hs; subst s1.
      destruct (flags_decay_recv s (-1)) as (Hc1 & _). rewrite Hc in Hc1.
      assert (Hin1 : GoInt.in_range (cnt (decay_recv (-1) s)))
        by (rewrite cnt_decay_recv; apply wrap_in_range).
      rewrite (IH _ Hc1 Hin1 Hr).
      rewrite cnt_decay_recv. unfold GoInt.add. rewrite wrap_add_l.
      f_equal. simpl. lia.
    + inversion Hs; subst s1.
      rewrite (cnt_cancelled_run evs (Shutdown s) s' eq_refl Hr). simpl.
      rewrite Z.add_0_r. symmetry. now apply wrap_small.
    + inversion Hs; subst s1. now same_counter.
    + rewrite Hc in Hs. discriminate.
    + destruct (0 <=? d); inversion Hs; subst s1. now same_counter.
    + destruct (timers s !! id) as [tm|]; [|discriminate].
      destruct (is_pending tm && (when tm <=? now s)); inversion Hs; subst s1.
      now same_counter.
    + destruct (timers s !! id) as [tm|]; [|discriminate].
      destruct (timer_status_eqb (status tm) Expired); inversion Hs; subst s1.
      now same_counter.
Qed.

Lemma run_app (evs1 evs2 : list event) s :
  run (evs1 ++ evs2) s = match run evs1 s with Some s1 => run evs2 s1 | None => None end.
Proof.
  revert s. induction evs1 as [|e evs1 IH]; simpl; intros s; [reflexivity|].
  destruct (step e s); [apply IH | reflexivity].
Qed.

End Counter.

(** C5: when [Done] has been accepted more often than [Register] nothing
    breaks: the invariant of the state holds; the counter is the difference
    as an [int], hence negative as long as the difference is one; along the
    run no timer is armed while the counter is not zero; the calls of
    [Register] that follow are accepted, and the timer is armed at the very
    one that brings the counter back to zero, not before. *)
Theorem unbalanced_done_is_harmless {H : Type} `{Histogram H}
    (histogram : H) (d : Z) (evs : list event) (s : state H) :
  run evs (NewSelfCleaningHistogram histogram d) = Some s ->
  ctx_done s = false ->
  registers (accepted evs) < dones (accepted evs) ->
  inv s /\
  cnt s = GoInt.wrap (registers (accepted evs) - dones (accepted evs)) /\
  (GoInt.in_range (registers (accepted evs) - dones (accepted evs)) ->
   cnt s = registers (accepted evs) - dones (accepted evs) /\ cnt s < 0) /\
  (forall (evs1 evs2 : list event) (s1 : state H),
     evs = evs1 ++ evs2 ->
     run evs1 (NewSelfCleaningHistogram histogram d) = Some s1 ->
     cnt s1 <> 0 -> armed s1 = false) /\
  (cnt s < 0 ->
   forall k : nat, Z.of_nat k <= - cnt s ->
     run (repeat CallRegister k) s = Some (deliver (repeat Reg k) s) /\
     cnt (deliver (repeat Reg k) s) = cnt s + Z.of_nat k /\
     armed (deliver (repeat Reg k) s) = (Z.of_nat k =? - cnt s)).
Proof.
  intros Hrun Hc Hlt.
  pose proof (inv_New histogram d) as Hi0.
  pose proof (inv_run evs _ s Hi0 Hrun) as Hi.
  pose proof (cnt_run evs (NewSelfCleaningHistogram histogram d) s eq_refl
                (inv_cnt _ Hi0) Hrun) as Hcnt.
  simpl in Hcnt.
  assert (Hr : running s = true).
  { destruct (running s) eqn:E; [reflexivity|].
    rewrite (inv_ctx s Hi E) in Hc. discriminate. }
  split; [assumption|]. split; [assumption|].
  split.
  { intros Hrange. rewrite wrap_small in Hcnt by assumption. lia. }
  split.
  - intros evs1 evs2 s1 _ Hrun1 Hne.
    apply nonzero_not_armed; [|assumption]. exact (inv_run evs1 _ s1 Hi0 Hrun1).
  - intros Hneg k Hk. split.
    + change (repeat CallRegister k) with (repeat (delta_event Reg) k).
      rewrite <- map_repeat. now apply run_deliver.
    + assert (Hck : cnt (deliver (repeat Reg k) s) = cnt s + Z.of_nat k).
      { rewrite cnt_deliver by apply Hi.
        rewrite registers_repeat, dones_repeat, Z.sub_0_r.
        apply wrap_small. pose proof (inv_cnt s Hi) as Hin.
        unfold GoInt.in_range, GoInt.min_int, GoInt.max_int, GoInt.bits in *.
        simpl in *. lia. }
      split; [assumption|].
      destruct k as [|k].
      * simpl deliver. rewrite nonzero_not_armed; [|assumption|lia].
        symmetry. apply Z.eqb_neq. lia.
      * replace (repeat Reg (S k)) with (repeat Reg k ++ [Reg]) in *
          by (symmetry; apply (repeat_cons k Reg)).
        rewrite deliver_app in *. simpl deliver at 1. simpl deliver in Hck at 1.
        rewrite armed_decay_recv by now apply inv_deliver.
        rewrite Hck.
        destruct (Z.eqb_spec (Z.of_nat (S k)) (- cnt s));
          [apply Z.eqb_eq | apply Z.eqb_neq]; lia.
Qed.

Lemma unbalanced_done_is_harmless_witness :
  exists s : state (list Z),
    run [CallRegister; CallDone; Elapse (150 * Millisecond); TimerExpire 0; CallDone;
         TimerRun 0; CallDone]
        (NewSelfCleaningHistogram [] (150 * Millisecond)) = Some s /\
    cnt s = -2 /\
    armed (deliver (repeat Reg 1) s) = false /\
    armed (deliver (repeat Reg 2) s) = true.
Proof.
  eexists. split; [reflexivity|].
  match goal with
  | |- cnt ?s0 = _ /\ _ =>
      destruct (unbalanced_done_is_harmless ([] : list Z) (150 * Millisecond)
                  [CallRegister; CallDone; Elapse (150 * Millisecond); TimerExpire 0;
                   CallDone; TimerRun 0; CallDone] s0)
        as (_ & _ & Hc & _ & Hk)
  end.
  - reflexivity.
  - reflexivity.
  - simpl. lia.
  - split.
    + apply Hc. unfold GoInt.in_range. vm_compute. split; discriminate.
    + split.
      * destruct (Hk eq_refl 1%nat) as (_ & _ & Hk1); [vm_compute; discriminate | exact Hk1].
      * destruct (Hk eq_refl 2%nat) as (_ & _ & Hk2); [vm_compute; discriminate | exact Hk2].
Defined.

(** C7: at the end of a run the counter is the number of accepted [Register]
    deltas minus the number of accepted [Done] deltas (computed as an [int],
    hence that very number whenever it is one), whatever else happened in
    between, and it is the same for every order in which the same deltas are
    delivered. *)
Theorem counter_is_sum_of_deltas {H : Type} `{Histogram H}
    (histogram : H) (d : Z) (evs evs' : list event) (s s' : state H) :
  run evs (NewSelfCleaningHistogram histogram d) = Some s ->
  run evs' (NewSelfCleaningHistogram histogram d) = Some s' ->
  Permutation (accepted evs) (accepted evs') ->
  cnt s = GoInt.wrap (registers (accepted evs) - dones (accepted evs)) /\
  (GoInt.in_range (registers (accepted evs) - dones (accepted evs)) ->
   cnt s = registers (accepted evs) - dones (accepted evs)) /\
  cnt s' = cnt s.
Proof.
  intros Hr Hr' Hp.
  pose proof (inv_New histogram d) as Hi0.
  rewrite (cnt_run evs (NewSelfCleaningHistogram histogram d) s eq_refl (inv_cnt _ Hi0) Hr).
  rewrite (cnt_run evs' (NewSelfCleaningHistogram histogram d) s' eq_refl (inv_cnt _ Hi0) Hr'). simpl.
  split; [reflexivity|]. split.
  - apply wrap_small.
  - now rewrite (registers_perm _ _ Hp), (dones_perm _ _ Hp).
Qed.

Lemma counter_is_sum_of_deltas_witness :
  exists s s' : state (list Z),
    run [CallRegister; CallUpdate 7; CallRegister; CallDone]
        (NewSelfCleaningHistogram [] (150 * Millisecond)) = Some s /\
    run [CallRegister; CallDone; Elapse (150 * Millisecond); TimerExpire 0; CallRegister]
        (NewSelfCleaningHistogram [] (150 * Millisecond)) = Some s' /\
    cnt s = 1 /\ cnt s' = 1.
Proof.
  eexists. eexists. split; [reflexivity|]. split; [reflexivity|].
  match goal with
  | |- cnt ?a = _ /\ cnt ?b = _ =>
      destruct (counter_is_sum_of_deltas ([] : list Z) (150 * Millisecond)
                  [CallRegister; CallUpdate 7; CallRegister; CallDone]
                  [CallRegister; CallDone; Elapse (150 * Millisecond); TimerExpire 0;
                   CallRegister] a b)
        as (_ & Hexact & Hsame)
  end.
  - reflexivity.
  - reflexivity.
  - simpl. apply perm_skip. apply perm_swap.
  - split.
    + apply Hexact. unfold GoInt.in_range. vm_compute. split; discriminate.
    + rewrite Hsame. apply Hexact. unfold GoInt.in_range. vm_compute. split; discriminate.
Defined.

(** ** The scenario of [TestSelfCleaningHistogram] *)

(** C6: with a delay of 150 ms over an empty histogram, two [Register], three
    [Update] and two [Done] leave three samples and an armed timer that
    cannot expire before the delay is over; once 300 ms have gone by it
    expires and its goroutine leaves no sample; after a [Register] and an
    [Update] no timer is armed and no timer can expire or clear however long
    one waits, and after 300 ms one more [Update] makes two samples. *)
Theorem TestSelfCleaningHistogram_counts :
  exists s1 s2 s3 s4 : state (list Z),
    run [CallRegister; CallRegister; CallUpdate 150; CallUpdate 100; CallUpdate 50;
         CallDone; CallDone]
        (NewSelfCleaningHistogram [] (150 * Millisecond)) = Some s1 /\
    Count (hist s1) = 3 /\ armed s1 = true /\
    (forall e : Z, 0 <= e -> e < 150 * Millisecond ->
       run [Elapse e; TimerExpire 0] s1 = None) /\
    run [Elapse (300 * Millisecond); TimerExpire 0; TimerRun 0] s1 = Some s2 /\
    Count (hist s2) = 0 /\
    (forall (e : Z) (id : nat),
       run [CallRegister; CallUpdate 50; Elapse e; TimerExpire id] s2 = None /\
       run [CallRegister; CallUpdate 50; Elapse e; TimerRun id] s2 = None) /\
    run [CallRegister; CallUpdate 50; Elapse (300 * Millisecond)] s2 = Some s3 /\
    Count (hist s3) = 1 /\ armed s3 = false /\
    run [CallUpdate 150] s3 = Some s4 /\
    Count (hist s4) = 2.
Proof.
  eexists. eexists. eexists. eexists.
  split; [reflexivity|]. split; [reflexivity|]. split; [reflexivity|].
  split.
  { intros e He Hlt.
    match goal with
    | |- run _ ?s = None =>
        destruct (fresh_timer_fires s [] (150 * Millisecond) eq_refl) as [Hno _]
    end.
    apply Hno; [assumption | simpl; lia]. }
  split; [reflexivity|]. split; [reflexivity|].
  split.
  { intros e id. simpl. destruct (0 <=? e); [|split; reflexivity].
    destruct id as [|id]; split; reflexivity. }
  split; [reflexivity|]. split; [reflexivity|]. split; [reflexivity|].
  split; reflexivity.
Qed.

(** ** The frame of a firing timer *)

Lemma delay_step {H : Type} `{Histogram H} (s s' : state H) (e : event) :
  step e s = Some s' -> delay s' = delay s.
Proof.
  intros Hs. destruct e; simpl in Hs.
  - unfold Register, send in Hs. destruct (ctx_done s); [congruence|].
    destruct (running s); inversion Hs. apply flags_decay_recv.
  - unfold Done, send in Hs. destruct (ctx_done s); [congruence|].
    destruct (running s); inversion Hs. apply flags_decay_recv.
  - inversion Hs; reflexivity.
  - inversion Hs; reflexivity.
  - destruct (ctx_done s && running s); inversion Hs; reflexivity.
  - destruct (0 <=? d); inversion Hs; reflexivity.
  - destruct (timers s !! id) as [tm|]; [|discriminate].
    destruct (is_pending tm && (when tm <=? now s)); inversion Hs; reflexivity.
  - destruct (timers s !! id) as [tm|]; [|discriminate].
    destruct (timer_status_eqb (status tm) Expired); inversion Hs; reflexivity.
Qed.

Lemma delay_run {H : Type} `{Histogram H} (evs : list event) (s s' : state H) :
  run evs s = Some s' -> delay s' = delay s.
Proof.
  revert s. induction evs as [|e evs IH]; simpl; intros s Hr.
  - congruence.
  - destruct (step e s) as [s1|] eqn:Hs; [|discriminate].
    rewrite (IH s1 Hr). eapply delay_step; eassumption.
Qed.

Lemma reachable_step {H : Type} `{Histogram H} (s s' : state H) (e : event) :
  reachable s -> step e s = Some s' -> reachable s'.
Proof.
  intros (histogram & d & evs & Hr) Hs. exists histogram, d, (evs ++ [e]).
  revert Hr. generalize (NewSelfCleaningHistogram histogram d).
  induction evs as [|x evs IH]; simpl; intros s0 Hr.
  - inversion Hr; subst s0. now rewrite Hs.
  - destruct (step x s0) as [s1|]; [|discriminate]. now apply IH.
Qed.

(** C9: a firing timer touches neither the counter nor [t] nor the shutdown
    status (nor the delay, nor the clock): its expiry only moves the timer's
    own status, and its goroutine only clears the wrapped histogram.  What
    [decay] does with the next delta is therefore the same as if the timer
    had not fired. *)
Theorem timer_fire_frame {H : Type} `{Histogram H} (s s' : state H) (id : nat) :
  reachable s ->
  step (TimerExpire id) s = Some s' \/ step (TimerRun id) s = Some s' ->
  cnt s' = cnt s /\ t s' = t s /\
  ctx_done s' = ctx_done s /\ running s' = running s /\
  delay s' = delay s /\ now s' = now s /\
  (step (TimerExpire id) s = Some s' -> hist s' = hist s) /\
  (step (TimerRun id) s = Some s' -> hist s' = Clear (hist s)) /\
  (forall j : nat, j <> id -> timers s' !! j = timers s !! j) /\
  (forall i : Z, i = 1 \/ i = -1 ->
     cnt (decay_recv i s') = cnt (decay_recv i s) /\
     t (decay_recv i s') = t (decay_recv i s) /\
     armed (decay_recv i s') = armed (decay_recv i s)).
Proof.
  intros Hre Hfire.
  assert (Hre' : reachable s') by (destruct Hfire; eapply reachable_step; eassumption).
  apply inv_reachable in Hre, Hre'.
  assert (Hframe : cnt s' = cnt s /\ t s' = t s /\ ctx_done s' = ctx_done s /\
                   running s' = running s /\ delay s' = delay s /\ now s' = now s /\
                   length (timers s') = length (timers s) /\
                   (forall j : nat, j <> id -> timers s' !! j = timers s !! j)).
  { destruct Hfire as [Hs|Hs]; simpl in Hs;
      (destruct (timers s !! id) as [tm|]; [|discriminate]).
    - destruct (is_pending tm && (when tm <=? now s)); inversion Hs; subst s'. simpl.
      repeat split; try reflexivity; [apply length_insert|].
      intros j Hj. apply list_lookup_insert_ne. congruence.
    - destruct (timer_status_eqb (status tm) Expired); inversion Hs; subst s'. simpl.
      repeat split; try reflexivity; [apply length_insert|].
      intros j Hj. apply list_lookup_insert_ne. congruence. }
  destruct Hframe as (Hc & Ht & Hd & Hr & Hdl & Hn & Hlen & Hoth).
  repeat (split; [assumption|]).
  split.
  { intros Hs. simpl in Hs. destruct (timers s !! id) as [tm|]; [|discriminate].
    destruct (is_pending tm && (when tm <=? now s)); inversion Hs; reflexivity. }
  split.
  { intros Hs. simpl in Hs. destruct (timers s !! id) as [tm|]; [|discriminate].
    destruct (timer_status_eqb (status tm) Expired); inversion Hs; reflexivity. }
  split; [assumption|].
  intros i Hi.
  rewrite !armed_decay_recv, !cnt_decay_recv, Hc by assumption.
  split; [reflexivity|]. split; [|reflexivity].
  unfold decay_recv. rewrite Hc.
  destruct (GoInt.add (cnt s) i =? 0); simpl; [|assumption].
  unfold AfterFunc. simpl. now rewrite Hlen.
Qed.

Lemma timer_fire_frame_witness :
  exists s s' : state (list Z),
    run [CallRegister; CallUpdate 5; CallDone; Elapse (150 * Millisecond)]
        (NewSelfCleaningHistogram [] (150 * Millisecond)) = Some s /\
    step (TimerExpire 0) s = Some s' /\
    cnt s' = cnt s /\ running s' = running s /\ hist s' = hist s.
Proof.
  eexists. eexists. split; [reflexivity|]. split; [reflexivity|].
  match goal with
  | |- cnt ?b = cnt ?a /\ _ =>
      destruct (timer_fire_frame a b 0%nat) as (Hc & _ & _ & Hr & _ & _ & Hh & _)
  end.
  - exists [], (150 * Millisecond),
      [CallRegister; CallUpdate 5; CallDone; Elapse (150 * Millisecond)].
    reflexivity.
  - left. reflexivity.
  - split; [exact Hc|]. split; [exact Hr|]. apply Hh. reflexivity.
Defined.

(** ** The delay *)

(** A freshly armed timer whose instant has already come can expire at once,
    and its goroutine then clears the histogram. *)
Lemma fresh_timer_due {H : Type} `{Histogram H} (s : state H) (l : list Timer) (w : Z) :
  timers s = l ++ [ {| when := w; status := Pending |} ] -> w <= now s ->
  exists s2 s3 : state H,
    step (TimerExpire (length l)) s = Some s2 /\
    step (TimerRun (length l)) s2 = Some s3 /\
    hist s3 = Clear (hist s) /\ now s3 = now s.
Proof.
  intros Ht Hw. simpl. rewrite Ht, lookup_snoc. simpl.
  assert ((w <=? now s) = true) as -> by (apply Z.leb_le; lia).
  eexists. eexists. split; [reflexivity|]. simpl.
  rewrite insert_snoc, lookup_snoc. simpl. auto.
Qed.

(** C10: [NewSelfCleaningHistogram] takes any delay as it is, zero and
    negative ones included, and always returns a coordinator that is ready
    ([decay] running, counter zero, no timer); the delay never changes
    afterwards; and when it is not positive, the timer armed by an accepted
    delta that brings the counter to zero is due at once: it can expire and
    clear the histogram without any time going by. *)
Theorem any_delay_is_accepted {H : Type} `{Histogram H} (histogram : H) (d : Z) :
  delay (NewSelfCleaningHistogram histogram d) = d /\
  hist (NewSelfCleaningHistogram histogram d) = histogram /\
  cnt (NewSelfCleaningHistogram histogram d) = 0 /\
  t (NewSelfCleaningHistogram histogram d) = None /\
  running (NewSelfCleaningHistogram histogram d) = true /\
  ctx_done (NewSelfCleaningHistogram histogram d) = false /\
  inv (NewSelfCleaningHistogram histogram d) /\
  (exists s : state H, Register (NewSelfCleaningHistogram histogram d) = Some s) /\
  (forall (evs : list event) (s : state H),
     run evs (NewSelfCleaningHistogram histogram d) = Some s -> delay s = d) /\
  (d <= 0 ->
   forall (evs : list event) (s s' : state H) (dl : delta),
     run evs (NewSelfCleaningHistogram histogram d) = Some s ->
     ctx_done s = false ->
     step (delta_event dl) s = Some s' ->
     cnt s' = 0 ->
     t s' = Some (length (timers s)) /\
     exists s2 s3 : state H,
       step (TimerExpire (length (timers s))) s' = Some s2 /\
       step (TimerRun (length (timers s))) s2 = Some s3 /\
       hist s3 = Clear (hist s') /\ now s3 = now s).
Proof.
  repeat (split; [reflexivity|]).
  split; [apply inv_New|].
  split; [eexists; reflexivity|].
  split.
  { intros evs s Hr. now rewrite (delay_run evs _ s Hr). }
  intros Hd evs s s' dl Hr Hc Hs Hz.
  pose proof (delay_run evs _ s Hr) as Hdl. simpl in Hdl.
  assert (Heq : s' = decay_recv (delta_value dl) s).
  { destruct dl; simpl in Hs |- *; unfold Register, Done, send in Hs;
      rewrite Hc in Hs; destruct (running s); congruence. }
  subst s'. rewrite cnt_decay_recv in Hz.
  assert (Ht : timers (decay_recv (delta_value dl) s)
               = timers s ++
                   [ {| when := when_after (now s) (delay s); status := Pending |} ] /\
               t (decay_recv (delta_value dl) s) = Some (length (timers s)) /\
               now (decay_recv (delta_value dl) s) = now s).
  { unfold decay_recv. rewrite Hz. simpl. auto. }
  destruct Ht as (Ht & Htt & Hn).
  split; [assumption|].
  destruct (fresh_timer_due _ _ _ Ht) as (s2 & s3 & H2 & H3 & Hh & Hn3).
  { rewrite Hn, when_after_nonpos by lia. lia. }
  exists s2, s3. split; [exact H2|]. split; [exact H3|]. split; [exact Hh|].
  now rewrite Hn3.
Qed.

(** ** The metered writer's close *)

(** C8: the close operation of a decorator is idempotent.  The first call
    returns; it releases the underlying resources once and issues at most
    one [Done()]; from then on every call leaves the decorator and the
    coordinator as they are and returns no error, which is what a successful
    first call returned. *)
Theorem Close_idempotent {H : Type} `{Histogram H} (w : Writer) (s : state H) :
  reachable s ->
  exists (w1 : Writer) (s1 : state H) (r1 : option nat),
    Close w s = Some (w1, s1, r1) /\
    closed w1 = true /\
    (s1 = s \/ Done s = Some s1) /\
    (closed w = false -> released w1 = S (released w) /\ r1 = endpoint_close w) /\
    (closed w = true -> w1 = w /\ s1 = s /\ r1 = None) /\
    Close w1 s1 = Some (w1, s1, None) /\
    (r1 = None -> Close w1 s1 = Close w s).
Proof.
  intros Hre. apply inv_reachable in Hre.
  unfold Close. destruct (closed w) eqn:Hcl.
  - exists w, s, None. rewrite Hcl. repeat split; auto; discriminate.
  - destruct (registrar w && outstanding w).
    + destruct (send_returns s (-1) Hre) as [s1 Hs1]. unfold Done. rewrite Hs1.
      eexists _, s1, _. simpl. split; [reflexivity|].
      repeat split; auto; try discriminate. intros ->. reflexivity.
    + eexists _, s, _. simpl. split; [reflexivity|].
      repeat split; auto; try discriminate. intros ->. reflexivity.
Qed.

Lemma Close_idempotent_witness :
  exists (w1 : Writer) (s1 : state (list Z)),
    Close {| closed := false; registrar := true; outstanding := true;
             released := 0; endpoint_close := None |}
          (decay_recv 1 (NewSelfCleaningHistogram [] (150 * Millisecond)))
      = Some (w1, s1, None) /\
    Close w1 s1 = Some (w1, s1, None) /\ cnt s1 = 0.
Proof.
  destruct (Close_idempotent
              {| closed := false; registrar := true; outstanding := true;
                 released := 0; endpoint_close := None |}
              (decay_recv 1 (NewSelfCleaningHistogram ([] : list Z) (150 * Millisecond))))
    as (w1 & s1 & r1 & Hfirst & _ & _ & _ & _ & Hsecond & _).
  - exists [], (150 * Millisecond), [CallRegister]. reflexivity.
  - exists w1, s1. simpl in Hfirst. inversion Hfirst; subst.
    split; [reflexivity|]. split; [exact Hsecond | reflexivity].
Defined.

(** * Further properties of the coordinator *)

(** ** One timer at a time *)

(** X1: [decay] never leaves two timers armed: in every reachable state an
    armed timer is the one [t] points to, so two armed timers are the same
    one. *)
Theorem at_most_one_timer_armed {H : Type} `{Histogram H}
    (s : state H) (id1 id2 : nat) (tm1 tm2 : Timer) :
  reachable s ->
  timers s !! id1 = Some tm1 -> status tm1 = Pending ->
  timers s !! id2 = Some tm2 -> status tm2 = Pending ->
  id1 = id2 /\ tm1 = tm2 /\ t s = Some id1.
Proof.
  intros Hre Hl1 Hp1 Hl2 Hp2. apply inv_reachable in Hre.
  destruct (inv_pending s Hre id1 tm1 Hl1 Hp1) as (Ht1 & _).
  destruct (inv_pending s Hre id2 tm2 Hl2 Hp2) as (Ht2 & _).
  assert (id1 = id2) by congruence. subst id2.
  split; [reflexivity|]. split; [congruence | assumption].
Qed.

Lemma at_most_one_timer_armed_witness :
  exists s : state (list Z),
    run [CallRegister; CallDone; CallDone; CallRegister]
        (NewSelfCleaningHistogram [] (150 * Millisecond)) = Some s /\
    t s = Some 1%nat.
Proof.
  eexists. split; [reflexivity|].
  match goal with
  | |- t ?s0 = _ =>
      assert (Hre : reachable s0)
        by (exists [], (150 * Millisecond),
              [CallRegister; CallDone; CallDone; CallRegister]; reflexivity);
      destruct (at_most_one_timer_armed s0 1 1
                  {| when := 150 * Millisecond; status := Pending |}
                  {| when := 150 * Millisecond; status := Pending |}
                  Hre eq_refl eq_refl eq_refl eq_refl)
        as (_ & _ & Ht)
  end.
  exact Ht.
Defined.

(** ** Calls return *)

(** X2: in every reachable state a call of [Register] or [Done] returns:
    [decay] leaves its loop only once the context is cancelled, so a caller
    finds either [decay] receiving or [ctx.Done()] closed. *)
Theorem Register_and_Done_return {H : Type} `{Histogram H} (s : state H) :
  reachable s ->
  (exists s1 : state H, Register s = Some s1) /\
  (exists s2 : state H, Done s = Some s2) /\
  (ctx_done s = false -> running s = true /\
     Register s = Some (decay_recv 1 s) /\ Done s = Some (decay_recv (-1) s)).
Proof.
  intros Hre. apply inv_reachable in Hre.
  split; [apply (send_returns s 1 Hre)|].
  split; [apply (send_returns s (-1) Hre)|].
  intros Hc.
  assert (Hr : running s = true).
  { destruct (running s) eqn:E; [reflexivity|].
    rewrite (inv_ctx s Hre E) in Hc. discriminate. }
  unfold Register, Done, send. rewrite Hc, Hr. auto.
Qed.

Lemma Register_and_Done_return_witness :
  exists s s1 : state (list Z),
    run [CallRegister; CallShutdown; DecayCancel]
        (NewSelfCleaningHistogram [] (150 * Millisecond)) = Some s /\
    Done s = Some s1.
Proof.
  eexists.
  match goal with
  | |- exists s1, run _ _ = Some ?s0 /\ _ =>
      destruct (Register_and_Done_return
                  (decay_cancel (Shutdown (decay_recv 1
                     (NewSelfCleaningHistogram ([] : list Z) (150 * Millisecond))))))
        as (_ & (s2 & Hd) & _)
  end.
  - exists [], (150 * Millisecond), [CallRegister; CallShutdown; DecayCancel].
    reflexivity.
  - exists s2. split; [reflexivity | exact Hd].
Defined.

(** ** Shutting down an idle coordinator *)

(** [Stop] neither starts nor forgets a clearing goroutine. *)
Lemma Stop_keeps_expired (id j : nat) (l : list Timer) (tm : Timer) :
  Stop id l !! j = Some tm -> status tm = Expired -> l !! j = Some tm.
Proof.
  intros Hl He. destruct (decide (id = j)) as [->|Hne].
  - destruct (l !! j) as [tm0|] eqn:E.
    + rewrite (Stop_lookup_eq _ _ _ E) in Hl.
      destruct (is_pending tm0); inversion Hl; subst tm; [discriminate He | reflexivity].
    + unfold Stop in Hl. rewrite E in Hl. congruence.
  - now rewrite Stop_lookup_ne in Hl by assumption.
Qed.

Lemma in_flight_stop_t {H : Type} (s : state H) (l : list Timer) :
  in_flight s = false ->
  l = match t s with Some id => Stop id (timers s) | None => timers s end ->
  forall (j : nat) (tm : Timer), l !! j = Some tm -> status tm <> Expired.
Proof.
  intros Hf -> j tm Hl He.
  apply (proj1 (in_flight_false s) Hf j tm); [|assumption].
  destruct (t s) as [id|]; [|assumption].
  eapply Stop_keeps_expired; eassumption.
Qed.

(** X3: [Shutdown] followed by [decay] taking the cancellation is always
    possible while [decay] runs; it stops the armed timer, if any, touches
    neither the counter nor the samples, and [decay] is gone for good.  If no
    clearing goroutine was already started, the samples are then frozen:
    nothing but [Update] changes them any more. *)
Theorem Shutdown_stops_the_timer {H : Type} `{Histogram H} (s : state H) :
  reachable s -> running s = true ->
  exists s' : state H,
    run [CallShutdown; DecayCancel] s = Some s' /\
    armed s' = false /\ running s' = false /\
    cnt s' = cnt s /\ hist s' = hist s /\
    step DecayCancel s' = None /\
    (forall (id : nat) (tm : Timer),
       t s = Some id -> timers s !! id = Some tm -> status tm = Pending ->
       timers s' !! id = Some (set_status Stopped tm)) /\
    (in_flight s = false -> samples_frozen s').
Proof.
  intros Hre Hr. apply inv_reachable in Hre.
  exists (decay_cancel (Shutdown s)).
  assert (Hi' : inv (decay_cancel (Shutdown s))).
  { apply inv_decay_cancel; [now apply inv_Shutdown | reflexivity]. }
  split; [simpl; now rewrite Hr|].
  split; [now apply stopped_not_armed|].
  split; [reflexivity|]. split; [reflexivity|]. split; [reflexivity|].
  split; [reflexivity|].
  split.
  - intros id tm Ht Hl Hp. simpl. rewrite Ht, (Stop_lookup_eq _ _ _ Hl).
    apply is_pending_true in Hp. now rewrite Hp.
  - intros Hf evs s' Hall Hrun.
    destruct (stopped_run evs _ s' Hi' eq_refl Hrun) as (_ & _ & Hkeep).
    apply Hkeep; [|assumption].
    apply in_flight_false. simpl.
    apply (in_flight_stop_t s); [assumption | reflexivity].
Qed.

Lemma Shutdown_stops_the_timer_witness :
  exists s s' : state (list Z),
    run [CallRegister; CallRegister; CallUpdate 150; CallUpdate 100; CallUpdate 50;
         CallDone; CallDone]
        (NewSelfCleaningHistogram [] (100 * Millisecond)) = Some s /\
    run [CallShutdown; DecayCancel] s = Some s' /\
    armed s = true /\ armed s' = false /\ samples_frozen s'.
Proof.
  eexists.
  match goal with
  | |- exists s', run ?evs ?s0 = Some ?s1 /\ _ =>
      destruct (Shutdown_stops_the_timer
                  (decay_recv (-1) (decay_recv (-1) (set_hist [150; 100; 50]
                     (decay_recv 1 (decay_recv 1
                        (NewSelfCleaningHistogram ([] : list Z) (100 * Millisecond))))))))
        as (s' & Hrun & Ha & _ & _ & _ & _ & _ & Hfrozen)
  end.
  - exists [], (100 * Millisecond),
      [CallRegister; CallRegister; CallUpdate 150; CallUpdate 100; CallUpdate 50;
       CallDone; CallDone].
    reflexivity.
  - reflexivity.
  - exists s'. split; [reflexivity|]. split; [exact Hrun|].
    split; [reflexivity|]. split; [exact Ha|]. apply Hfrozen. reflexivity.
Defined.

(** ** Activity and the idle window *)

Lemma add_sub_unit (c : Z) :
  GoInt.in_range c ->
  GoInt.add (GoInt.add c 1) (-1) = c /\ GoInt.add (GoInt.add c (-1)) 1 = c.
Proof.
  intros Hc. unfold GoInt.add. rewrite !wrap_add_l.
  replace (c + 1 + -1) with c by lia. replace (c + -1 + 1) with c by lia.
  split; now apply wrap_small.
Qed.

(** X4: a call of [Register] followed by its [Done] leaves the counter and
    the samples where they were, whatever the counter is (the largest [int]
    included, where the first step wraps around), and so does a [Done]
    followed by a [Register]. *)
Theorem Register_Done_round_trip {H : Type} `{Histogram H} (s : state H) :
  reachable s -> ctx_done s = false ->
  exists s1 s2 : state H,
    run [CallRegister; CallDone] s = Some s1 /\
    run [CallDone; CallRegister] s = Some s2 /\
    cnt s1 = cnt s /\ cnt s2 = cnt s /\
    hist s1 = hist s /\ hist s2 = hist s /\
    ctx_done s1 = false /\ ctx_done s2 = false.
Proof.
  intros Hre Hc. apply inv_reachable in Hre.
  assert (Hr : running s = true).
  { destruct (running s) eqn:E; [reflexivity|].
    rewrite (inv_ctx s Hre E) in Hc. discriminate. }
  exists (deliver [Reg; Don] s), (deliver [Don; Reg] s).
  split; [apply (run_deliver [Reg; Don] s Hc Hr)|].
  split; [apply (run_deliver [Don; Reg] s Hc Hr)|].
  destruct (add_sub_unit (cnt s) (inv_cnt s Hre)) as [Hrd Hdr].
  unfold deliver. simpl fold_left. rewrite !cnt_decay_recv.
  split; [exact Hrd|]. split; [exact Hdr|].
  destruct (flags_decay_recv s 1) as (Hc1 & _ & Hh1 & _).
  destruct (flags_decay_recv (decay_recv 1 s) (-1)) as (Hc2 & _ & Hh2 & _).
  destruct (flags_decay_recv s (-1)) as (Hc3 & _ & Hh3 & _).
  destruct (flags_decay_recv (decay_recv (-1) s) 1) as (Hc4 & _ & Hh4 & _).
  simpl in *. repeat split; congruence.
Qed.

Lemma Register_Done_round_trip_witness :
  exists s1 : state (list Z),
    run [CallRegister; CallDone]
        (decay_recv 1 (NewSelfCleaningHistogram [] (150 * Millisecond))) = Some s1 /\
    cnt s1 = 1.
Proof.
  destruct (Register_Done_round_trip
              (decay_recv 1 (NewSelfCleaningHistogram ([] : list Z) (150 * Millisecond))))
    as (s1 & s2 & Hrun & _ & Hc & _).
  - exists [], (150 * Millisecond), [CallRegister]. reflexivity.
  - reflexivity.
  - exists s1. split; [exact Hrun | exact Hc].
Defined.

(** ** After [Shutdown] *)

(** Only a delta received by [decay] moves [t] or creates a timer. *)
Lemma handle_step {H : Type} `{Histogram H} (s s' : state H) (e : event) :
  ctx_done s = true -> step e s = Some s' ->
  t s' = t s /\ length (timers s') = length (timers s).
Proof.
  intros Hc Hs. destruct e; simpl in Hs.
  - unfold Register in Hs. rewrite send_after_cancel in Hs by assumption.
    inversion Hs; auto.
  - unfold Done in Hs. rewrite send_after_cancel in Hs by assumption.
    inversion Hs; auto.
  - inversion Hs; auto.
  - inversion Hs; auto.
  - destruct (ctx_done s && running s); inversion Hs; subst s'. simpl.
    split; [reflexivity|]. destruct (t s); [apply length_Stop | reflexivity].
  - destruct (0 <=? d); inversion Hs; auto.
  - destruct (timers s !! id) as [tm|]; [|discriminate].
    destruct (is_pending tm && (when tm <=? now s)); inversion Hs; subst s'. simpl.
    split; [reflexivity | apply length_insert].
  - destruct (timers s !! id) as [tm|]; [|discriminate].
    destruct (timer_status_eqb (status tm) Expired); inversion Hs; subst s'. simpl.
    split; [reflexivity | apply length_insert].
Qed.

(** Between two iterations of [decay] with the context cancelled: [decay]
    receives no further delta, so that only its exit is left to it. *)
Lemma cancelled_run {H : Type} `{Histogram H} (evs : list event) (s s' : state H) :
  ctx_done s = true -> run evs s = Some s' ->
  ctx_done s' = true /\ cnt s' = cnt s /\ t s' = t s /\
  length (timers s') = length (timers s).
Proof.
  revert s. induction evs as [|e evs IH]; simpl; intros s Hc Hr.
  - inversion Hr; subst s'. auto.
  - destruct (step e s) as [s1|] eqn:Hs; [|discriminate].
    pose proof (ctx_done_step s s1 e Hc Hs) as Hc1.
    destruct (IH s1 Hc1 Hr) as (Hd & Hcnt & Ht & Hlen).
    destruct (handle_step s s1 e Hc Hs) as [Ht1 Hlen1].
    rewrite (cnt_cancelled_step s s1 e Hc Hs) in Hcnt.
    split; [assumption|]. split; [assumption|]. split; congruence.
Qed.

(** X6: once [decay] has taken the cancellation and returned, nothing that
    happens changes the counter or the timer it held, no timer is ever
    created again and none is armed: the calls of [Register] and [Done] made
    from then on are dropped. *)
Theorem nothing_moves_after_decay_returns {H : Type} `{Histogram H}
    (evs : list event) (s s' : state H) :
  reachable s -> running s = false -> run evs s = Some s' ->
  running s' = false /\ ctx_done s' = true /\
  cnt s' = cnt s /\ t s' = t s /\
  length (timers s') = length (timers s) /\
  armed s' = false.
Proof.
  intros Hre Hr Hrun. apply inv_reachable in Hre.
  destruct (stopped_run evs s s' Hre Hr Hrun) as (Hi' & Hr' & _).
  destruct (cancelled_run evs s s' (inv_ctx s Hre Hr) Hrun) as (Hc & Hcnt & Ht & Hlen).
  split; [assumption|]. split; [assumption|]. split; [assumption|].
  split; [assumption|]. split; [assumption|].
  now apply stopped_not_armed.
Qed.

Lemma nothing_moves_after_decay_returns_witness :
  exists s' : state (list Z),
    run [CallRegister; CallDone; CallDone; Elapse (150 * Millisecond)]
        (decay_cancel (Shutdown (decay_recv 1
           (NewSelfCleaningHistogram [] (150 * Millisecond))))) = Some s' /\
    cnt s' = 1 /\ armed s' = false.
Proof.
  eexists. split; [reflexivity|].
  match goal with
  | |- cnt ?s1 = _ /\ _ =>
      destruct (nothing_moves_after_decay_returns
                  [CallRegister; CallDone; CallDone; Elapse (150 * Millisecond)]
                  (decay_cancel (Shutdown (decay_recv 1
                     (NewSelfCleaningHistogram ([] : list Z) (150 * Millisecond)))))
                  s1)
        as (_ & _ & Hc & _ & _ & Ha)
  end.
  - exists [], (150 * Millisecond), [CallRegister; CallShutdown; DecayCancel].
    reflexivity.
  - reflexivity.
  - reflexivity.
  - split; [exact Hc | exact Ha].
Defined.

(** ** No clearing before the delay is over *)

Lemma has_fired_set_status (st : timer_status) (tm : Timer) :
  when (set_status st tm) = when tm /\ status (set_status st tm) = st.
Proof. split; reflexivity. Qed.

(** What [Stop] leaves of a timer: its instant, and whether it has fired. *)
Lemma Stop_lookup_any (id j : nat) (l : list Timer) (tm : Timer) :
  l !! j = Some tm ->
  exists tm' : Timer,
    Stop id l !! j = Some tm' /\ when tm' = when tm /\
    has_fired tm' = has_fired tm /\
    (status tm <> Pending -> tm' = tm).
Proof.
  intros Hl. destruct (decide (id = j)) as [->|Hne].
  - rewrite (Stop_lookup_eq _ _ _ Hl). destruct (is_pending tm) eqn:Hp.
    + apply is_pending_true in Hp. eexists. split; [reflexivity|].
      split; [reflexivity|]. split.
      * unfold has_fired. simpl. now rewrite Hp.
      * intros Hne. contradiction.
    + exists tm. auto.
  - rewrite Stop_lookup_ne by assumption. exists tm. auto.
Qed.

Section Timing.

Context {H : Type} `{Histogram H}.

Implicit Types (s : state H) (e : event).

(** One step in the life of timer [id]: it keeps its instant, the clock does
    not go back, and it fires only once its instant has come. *)
Lemma timer_step s s' e (id : nat) (tm : Timer) :
  timers s !! id = Some tm -> (has_fired tm = true -> when tm <= now s) ->
  step e s = Some s' ->
  now s <= now s' /\
  exists tm' : Timer,
    timers s' !! id = Some tm' /\ when tm' = when tm /\
    (has_fired tm' = true -> when tm <= now s') /\
    (status tm <> Pending -> status tm' <> Pending) /\
    (status tm = Stopped \/ status tm = Ran -> tm' = tm).
Proof.
  intros Hl Hdue Hs.
  assert (Hrecv : forall i : Z,
            now s <= now (decay_recv i s) /\
            exists tm' : Timer,
              timers (decay_recv i s) !! id = Some tm' /\ when tm' = when tm /\
              (has_fired tm' = true -> when tm <= now (decay_recv i s)) /\
              (status tm <> Pending -> status tm' <> Pending) /\
              (status tm = Stopped \/ status tm = Ran -> tm' = tm)).
  { intros i. unfold decay_recv.
    destruct (GoInt.add (cnt s) i =? 0); simpl; (split; [lia|]).
    - exists tm. rewrite lookup_app_l by (eapply lookup_lt_Some; eassumption). auto.
    - destruct (t s) as [id0|]; [|exists tm; auto].
      destruct (Stop_lookup_any id0 id _ tm Hl) as (tm' & Hl' & Hw & Hf & Hsame).
      exists tm'. split; [assumption|]. split; [assumption|].
      split; [rewrite Hf; assumption|].
      split; [intros Hne; now rewrite (Hsame Hne)|].
      intros [Hst|Hst]; apply Hsame; congruence. }
  destruct e; simpl in Hs.
  - unfold Register, send in Hs. destruct (ctx_done s).
    + inversion Hs; subst s'. split; [lia|]. exists tm. auto.
    + destruct (running s); inversion Hs; subst s'. apply Hrecv.
  - unfold Done, send in Hs. destruct (ctx_done s).
    + inversion Hs; subst s'. split; [lia|]. exists tm. auto.
    + destruct (running s); inversion Hs; subst s'. apply Hrecv.
  - inversion Hs; subst s'. simpl. split; [lia|]. exists tm. auto.
  - inversion Hs; subst s'. simpl. split; [lia|]. exists tm. auto.
  - destruct (ctx_done s && running s); inversion Hs; subst s'. simpl.
    split; [lia|].
    destruct (t s) as [id0|]; [|exists tm; auto].
    destruct (Stop_lookup_any id0 id _ tm Hl) as (tm' & Hl' & Hw & Hf & Hsame).
    exists tm'. split; [assumption|]. split; [assumption|].
    split; [rewrite Hf; assumption|].
    split; [intros Hne; now rewrite (Hsame Hne)|].
    intros [Hst|Hst]; apply Hsame; congruence.
  - destruct (0 <=? d) eqn:Hd; inversion Hs; subst s'. simpl.
    apply Z.leb_le in Hd. split; [lia|]. exists tm.
    split; [assumption|]. split; [reflexivity|].
    split; [intros Hf; specialize (Hdue Hf); lia | auto].
  - destruct (timers s !! id0) as [tm0|] eqn:Hl0; [|discriminate].
    destruct (is_pending tm0) eqn:Hp0; [|discriminate].
    destruct (when tm0 <=? now s) eqn:Hw0; inversion Hs; subst s'. simpl.
    apply Z.leb_le in Hw0. apply is_pending_true in Hp0.
    split; [lia|]. destruct (decide (id0 = id)) as [->|Hne].
    + rewrite Hl in Hl0. inversion Hl0; subst tm0.
      eexists. split; [apply list_lookup_insert_eq; eapply lookup_lt_Some; eassumption|].
      split; [reflexivity|]. split; [intros _; assumption|].
      split; [intros Hne; contradiction|].
      intros [Hst|Hst]; congruence.
    + exists tm. rewrite list_lookup_insert_ne by assumption. auto.
  - destruct (timers s !! id0) as [tm0|] eqn:Hl0; [|discriminate].
    destruct (timer_status_eqb (status tm0) Expired) eqn:He0; inversion Hs; subst s'.
    simpl. split; [lia|]. destruct (decide (id0 = id)) as [->|Hne].
    + rewrite Hl in Hl0. inversion Hl0; subst tm0.
      assert (Hst : status tm = Expired)
        by (destruct (status tm); simpl in He0; congruence).
      eexists. split; [apply list_lookup_insert_eq; eapply lookup_lt_Some; eassumption|].
      split; [reflexivity|].
      split; [intros _; apply Hdue; unfold has_fired; now rewrite Hst|].
      split; [intros _; simpl; discriminate|].
      intros [Hs'|Hs']; congruence.
    + exists tm. rewrite list_lookup_insert_ne by assumption. auto.
Qed.

Lemma timer_run (evs : list event) s s' (id : nat) (tm : Timer) :
  timers s !! id = Some tm -> (has_fired tm = true -> when tm <= now s) ->
  run evs s = Some s' ->
  now s <= now s' /\
  exists tm' : Timer,
    timers s' !! id = Some tm' /\ when tm' = when tm /\
    (has_fired tm' = true -> when tm <= now s') /\
    (status tm <> Pending -> status tm' <> Pending) /\
    (status tm = Stopped \/ status tm = Ran -> tm' = tm).
Proof.
  revert s tm. induction evs as [|e evs IH]; simpl; intros s tm Hl Hdue Hr.
  - inversion Hr; subst s'. split; [lia|]. exists tm. auto.
  - destruct (step e s) as [s1|] eqn:Hs; [|discriminate].
    destruct (timer_step s s1 e id tm Hl Hdue Hs)
      as (Hn1 & tm1 & Hl1 & Hw1 & Hdue1 & Hnp1 & Hsame1).
    rewrite <- Hw1 in Hdue1.
    destruct (IH s1 tm1 Hl1 Hdue1 Hr) as (Hn2 & tm2 & Hl2 & Hw2 & Hdue2 & Hnp2 & Hsame2).
    split; [lia|]. exists tm2. split; [assumption|]. split; [congruence|].
    split; [rewrite <- Hw1; assumption|]. split; [auto|].
    intros Hst. pose proof (Hsame1 Hst) as E. subst tm1. now apply Hsame2.
Qed.

End Timing.

(** X7: the histogram is never cleared before the timer's instant.  The
    timer armed when [decay] handles the delta that brings the counter to
    zero keeps the instant [time.AfterFunc] gave it then, and whenever it is
    found expired, or its goroutine is about to clear the histogram, the
    clock has reached that instant; for a positive delay whose sum with the
    clock is an [int64], at least the whole delay has gone by since [decay]
    handled the delta. *)
Theorem no_clear_before_delay {H : Type} `{Histogram H}
    (s s2 : state H) (i : Z) (evs : list event) :
  cnt (decay_recv i s) = 0 ->
  run evs (decay_recv i s) = Some s2 ->
  exists tm : Timer,
    timers s2 !! length (timers s) = Some tm /\
    when tm = when_after (now s) (delay s) /\
    (has_fired tm = true -> when_after (now s) (delay s) <= now s2) /\
    (forall s3 : state H,
       step (TimerRun (length (timers s))) s2 = Some s3 ->
       when_after (now s) (delay s) <= now s2) /\
    (0 < delay s -> 0 <= now s -> now s + delay s <= MaxInt64 ->
       has_fired tm = true -> now s + delay s <= now s2).
Proof.
  intros Hz Hrun.
  rewrite cnt_decay_recv in Hz.
  assert (Hl : timers (decay_recv i s) !! length (timers s)
               = Some {| when := when_after (now s) (delay s); status := Pending |}).
  { unfold decay_recv. rewrite Hz. simpl. apply lookup_snoc. }
  destruct (timer_run evs _ s2 _ _ Hl ltac:(discriminate) Hrun)
    as (_ & tm & Hl2 & Hw & Hdue & _).
  simpl in Hw, Hdue.
  exists tm. split; [assumption|]. split; [assumption|]. split; [assumption|].
  split.
  - intros s3 Hs3. apply Hdue. simpl in Hs3. rewrite Hl2 in Hs3.
    unfold has_fired. destruct (status tm); simpl in Hs3; congruence.
  - intros Hd Hn Hs Hf. rewrite <- (when_after_exact (now s) (delay s)) by assumption.
    now apply Hdue.
Qed.

Lemma no_clear_before_delay_witness :
  exists s2 : state (list Z),
    run [Elapse (100 * Millisecond); CallRegister; Elapse (60 * Millisecond)]
        (decay_recv (-1) (decay_recv 1
           (NewSelfCleaningHistogram [] (150 * Millisecond)))) = Some s2 /\
    step (TimerRun 0) s2 = None /\
    timers s2 !! 0%nat = Some {| when := 150 * Millisecond; status := Stopped |}.
Proof.
  eexists. split; [reflexivity|].
  match goal with
  | |- step _ ?x = None /\ _ =>
      destruct (no_clear_before_delay
                  (decay_recv 1 (NewSelfCleaningHistogram ([] : list Z) (150 * Millisecond)))
                  x (-1)
                  [Elapse (100 * Millisecond); CallRegister; Elapse (60 * Millisecond)]
                  eq_refl eq_refl)
        as (tm & Hl & _)
  end.
  split; [reflexivity|].
  simpl in Hl. inversion Hl. reflexivity.
Defined.

(** ** Activity and the idle window *)

(** X5: activity resets the idle window.  If [decay], idle with the counter
    at zero, handles the delta of a [Register] and later, with the counter at
    one, that of a [Done], then the timer that was pending when it handled
    the first is stopped for good, and the only timer armed afterwards is a
    fresh one, whose instant is the one [time.AfterFunc] gives for the whole
    delay at the moment the second delta is handled. *)
Theorem activity_resets_idle_window {H : Type} `{Histogram H}
    (s s2 : state H) (evs : list event) :
  reachable s -> running s = true -> cnt s = 0 ->
  run evs (decay_recv 1 s) = Some s2 ->
  running s2 = true -> cnt s2 = 1 ->
  armed (decay_recv 1 s) = false /\
  cnt (decay_recv (-1) s2) = 0 /\
  armed (decay_recv (-1) s2) = true /\
  t (decay_recv (-1) s2) = Some (length (timers s2)) /\
  timers (decay_recv (-1) s2) !! length (timers s2)
    = Some {| when := when_after (now s2) (delay s); status := Pending |} /\
  (forall (id : nat) (tm : Timer),
     timers (decay_recv (-1) s2) !! id = Some tm -> status tm = Pending ->
     id = length (timers s2) /\ when tm = when_after (now s2) (delay s)) /\
  (forall (id : nat) (tm : Timer),
     timers s !! id = Some tm -> status tm = Pending ->
     timers (decay_recv (-1) s2) !! id = Some (set_status Stopped tm)).
Proof.
  intros Hre Hr Hz Hrun Hr2 Hc2.
  pose proof (inv_reachable s Hre) as Hi.
  assert (Hi1 : inv (decay_recv 1 s)) by (apply inv_decay_recv; auto).
  pose proof (inv_run evs _ s2 Hi1 Hrun) as Hi2.
  assert (Hi3 : inv (decay_recv (-1) s2)) by (apply inv_decay_recv; auto).
  assert (Hd : delay s2 = delay s).
  { rewrite (delay_run evs _ s2 Hrun). apply flags_decay_recv. }
  assert (Hshape : decay_recv (-1) s2 =
            {| hist := hist s2; ctx_done := ctx_done s2; delay := delay s2;
               t := Some (length (timers s2)); cnt := 0; running := running s2;
               timers := timers s2 ++
                 [ {| when := when_after (now s2) (delay s2); status := Pending |} ];
               now := now s2 |}).
  { unfold decay_recv. rewrite Hc2.
    change (GoInt.add 1 (-1) =? 0) with true. cbv iota. reflexivity. }
  assert (Hnew : timers (decay_recv (-1) s2) !! length (timers s2)
                 = Some {| when := when_after (now s2) (delay s); status := Pending |}).
  { rewrite Hshape. simpl. rewrite Hd. apply lookup_snoc. }
  split.
  { rewrite armed_decay_recv by assumption. rewrite cnt_decay_recv, Hz. reflexivity. }
  split; [now rewrite Hshape|].
  split.
  { apply armed_true. eexists _, _. split; [exact Hnew | reflexivity]. }
  split; [now rewrite Hshape|].
  split; [exact Hnew|].
  split.
  - intros id tm Hl Hp.
    destruct (inv_pending _ Hi3 id tm Hl Hp) as (Ht & _).
    rewrite Hshape in Ht. simpl in Ht. inversion Ht; subst id.
    rewrite Hnew in Hl. inversion Hl; subst tm. auto.
  - intros id tm Hl Hp.
    destruct (inv_pending s Hi id tm Hl Hp) as (Ht & _).
    assert (Hl1 : timers (decay_recv 1 s) !! id = Some (set_status Stopped tm)).
    { unfold decay_recv. rewrite Hz. change (GoInt.add 0 1 =? 0) with false.
      cbv iota. simpl. rewrite Ht, (Stop_lookup_eq _ _ _ Hl).
      apply is_pending_true in Hp. now rewrite Hp. }
    destruct (timer_run evs _ s2 id _ Hl1 ltac:(discriminate) Hrun)
      as (_ & tm2 & Hl2 & _ & _ & _ & Hsame).
    rewrite (Hsame (or_introl eq_refl)) in Hl2.
    rewrite Hshape. simpl.
    rewrite lookup_app_l by (eapply lookup_lt_Some; eassumption). assumption.
Qed.

Lemma activity_resets_idle_window_witness :
  timers (decay_recv (-1) (decay_recv 1 (decay_recv (-1) (decay_recv 1
            (NewSelfCleaningHistogram ([] : list Z) (150 * Millisecond))))))
    !! 0%nat = Some {| when := 150 * Millisecond; status := Stopped |} /\
  armed (decay_recv (-1) (decay_recv 1 (decay_recv (-1) (decay_recv 1
            (NewSelfCleaningHistogram ([] : list Z) (150 * Millisecond)))))) = true.
Proof.
  destruct (activity_resets_idle_window
              (decay_recv (-1) (decay_recv 1
                 (NewSelfCleaningHistogram ([] : list Z) (150 * Millisecond))))
              (decay_recv 1 (decay_recv (-1) (decay_recv 1
                 (NewSelfCleaningHistogram ([] : list Z) (150 * Millisecond)))))
              [])
    as (_ & _ & Ha & _ & _ & _ & Hold); try reflexivity.
  - exists [], (150 * Millisecond), [CallRegister; CallDone]. reflexivity.
  - split; [|exact Ha].
    apply (Hold 0%nat {| when := 150 * Millisecond; status := Pending |}); reflexivity.
Defined.

(** ** A timer is used once *)

Section TimerLife.

Context {H : Type} `{Histogram H}.

Implicit Types (s : state H) (e : event).

(** A timer that appears in a step is a freshly armed one. *)
Lemma step_new_timer s s' e (id : nat) (tm : Timer) :
  step e s = Some s' -> timers s !! id = None -> timers s' !! id = Some tm ->
  tm = {| when := when_after (now s) (delay s); status := Pending |}.
Proof.
  intros Hs Hnone Hl.
  apply lookup_ge_None in Hnone.
  assert (Hkeep : forall l : list Timer, length l = length (timers s) -> l !! id = Some tm -> False).
  { intros l Hlen Hl0. apply lookup_lt_Some in Hl0. lia. }
  assert (Hrecv : forall i : Z, timers (decay_recv i s) !! id = Some tm ->
            tm = {| when := when_after (now s) (delay s); status := Pending |}).
  { intros i. unfold decay_recv.
    destruct (GoInt.add (cnt s) i =? 0); simpl; intros Hl0.
    - rewrite lookup_app_r in Hl0 by assumption.
      destruct (id - length (timers s))%nat; simpl in Hl0; [congruence|].
      rewrite lookup_nil in Hl0. discriminate.
    - exfalso. destruct (t s) as [id0|].
      + apply (Hkeep _ (length_Stop id0 (timers s)) Hl0).
      + apply (Hkeep _ eq_refl Hl0). }
  destruct e; simpl in Hs.
  - unfold Register, send in Hs. destruct (ctx_done s).
    + inversion Hs; subst s'. exfalso. eapply Hkeep; [reflexivity | eassumption].
    + destruct (running s); inversion Hs; subst s'. eapply Hrecv; eassumption.
  - unfold Done, send in Hs. destruct (ctx_done s).
    + inversion Hs; subst s'. exfalso. eapply Hkeep; [reflexivity | eassumption].
    + destruct (running s); inversion Hs; subst s'. eapply Hrecv; eassumption.
  - inversion Hs; subst s'. exfalso. eapply Hkeep; [reflexivity | eassumption].
  - inversion Hs; subst s'. exfalso. eapply Hkeep; [reflexivity | eassumption].
  - destruct (ctx_done s && running s); inversion Hs; subst s'. simpl in Hl.
    exfalso. eapply Hkeep; [|eassumption].
    destruct (t s); [apply length_Stop | reflexivity].
  - destruct (0 <=? d); inversion Hs; subst s'.
    exfalso. eapply Hkeep; [reflexivity | eassumption].
  - destruct (timers s !! id0) as [tm0|]; [|discriminate].
    destruct (is_pending tm0 && (when tm0 <=? now s)); inversion Hs; subst s'.
    simpl in Hl. exfalso. eapply Hkeep; [apply length_insert | eassumption].
  - destruct (timers s !! id0) as [tm0|]; [|discriminate].
    destruct (timer_status_eqb (status tm0) Expired); inversion Hs; subst s'.
    simpl in Hl. exfalso. eapply Hkeep; [apply length_insert | eassumption].
Qed.

Lemma fired_are_due_step s s' e : fired_are_due s -> step e s = Some s' -> fired_are_due s'.
Proof.
  intros Hdue Hs id tm' Hl' Hf'.
  destruct (timers s !! id) as [tm|] eqn:Hl.
  - destruct (timer_step s s' e id tm Hl (Hdue id tm Hl) Hs)
      as (_ & tm'' & Hl'' & Hw & Hd & _).
    rewrite Hl' in Hl''. inversion Hl''; subst tm''. rewrite Hw. now apply Hd.
  - rewrite (step_new_timer s s' e id tm' Hs Hl Hl') in Hf'. discriminate.
Qed.

Lemma fired_are_due_run (evs : list event) s s' :
  fired_are_due s -> run evs s = Some s' -> fired_are_due s'.
Proof.
  revert s. induction evs as [|e evs IH]; simpl; intros s Hdue Hr.
  - inversion Hr; subst s'. assumption.
  - destruct (step e s) as [s1|] eqn:Hs; [|discriminate].
    eapply IH; [|eassumption]. eapply fired_are_due_step; eassumption.
Qed.

Lemma fired_are_due_reachable s : reachable s -> fired_are_due s.
Proof.
  intros (histogram & d & evs & Hr). eapply fired_are_due_run; [|eassumption].
  intros id tm Hl. simpl in Hl. rewrite lookup_nil in Hl. discriminate.
Qed.

End TimerLife.

(** X8: a timer is used once.  In every run from a reachable state, a timer
    that is no longer pending never becomes pending again and keeps its
    instant; one that was stopped stays stopped, so the clearing it stood for
    never happens, and one whose goroutine has run never runs again.  Every
    timer that has fired did so at or after its instant. *)
Theorem timer_is_used_once {H : Type} `{Histogram H}
    (evs : list event) (s s' : state H) (id : nat) (tm : Timer) :
  reachable s ->
  run evs s = Some s' ->
  timers s !! id = Some tm ->
  status tm <> Pending ->
  exists tm' : Timer,
    timers s' !! id = Some tm' /\
    when tm' = when tm /\
    status tm' <> Pending /\
    (status tm = Stopped \/ status tm = Ran ->
       tm' = tm /\ step (TimerExpire id) s' = None /\ step (TimerRun id) s' = None) /\
    (has_fired tm' = true -> when tm' <= now s').
Proof.
  intros Hre Hrun Hl Hnp.
  pose proof (fired_are_due_reachable s Hre) as Hdue.
  destruct (timer_run evs s s' id tm Hl (Hdue id tm Hl) Hrun)
    as (_ & tm' & Hl' & Hw & Hd & Hnp' & Hsame).
  exists tm'. split; [assumption|]. split; [assumption|].
  split; [auto|]. split.
  - intros Hst. pose proof (Hsame Hst) as E. subst tm'.
    split; [reflexivity|]. simpl. rewrite Hl'. unfold is_pending.
    destruct Hst as [-> | ->]; split; reflexivity.
  - rewrite Hw. assumption.
Qed.

Lemma timer_is_used_once_witness :
  exists s s' : state (list Z),
    run [CallRegister; CallDone; CallRegister]
        (NewSelfCleaningHistogram [] (150 * Millisecond)) = Some s /\
    run [Elapse (300 * Millisecond); CallDone; Elapse (300 * Millisecond)] s = Some s' /\
    timers s' !! 0%nat = Some {| when := 150 * Millisecond; status := Stopped |} /\
    step (TimerExpire 0) s' = None.
Proof.
  eexists. eexists. split; [reflexivity|]. split; [reflexivity|].
  match goal with
  | |- timers ?b !! _ = _ /\ _ =>
      destruct (timer_is_used_once
                  [Elapse (300 * Millisecond); CallDone; Elapse (300 * Millisecond)]
                  (decay_recv 1 (decay_recv (-1) (decay_recv 1
                     (NewSelfCleaningHistogram ([] : list Z) (150 * Millisecond)))))
                  b 0 {| when := 150 * Millisecond; status := Stopped |})
        as (tm' & Hl' & _ & _ & Hsame & _)
  end.
  - exists [], (150 * Millisecond), [CallRegister; CallDone; CallRegister]. reflexivity.
  - reflexivity.
  - reflexivity.
  - discriminate.
  - destruct (Hsame (or_introl eq_refl)) as (E & Hx & _). subst tm'.
    split; [exact Hl' | exact Hx].
Defined.

(** ** The race between a firing timer and [Register] *)

(** X9: [Stop] comes too late for a timer that has already expired.  If a
    timer has expired and its goroutine has not run yet, a [Register] that
    is accepted afterwards does not prevent the clearing: the goroutine can
    still run and empties the histogram although a user is registered. *)
Theorem Register_does_not_stop_a_started_clear {H : Type} `{Histogram H}
    (s : state H) (id : nat) (tm : Timer) :
  ctx_done s = false -> running s = true ->
  timers s !! id = Some tm -> status tm = Expired ->
  exists s1 s2 : state H,
    Register s = Some s1 /\
    cnt s1 = GoInt.add (cnt s) 1 /\
    timers s1 !! id = Some tm /\
    step (TimerRun id) s1 = Some s2 /\
    hist s2 = Clear (hist s) /\
    cnt s2 = cnt s1.
Proof.
  intros Hc Hr Hl He.
  exists (decay_recv 1 s).
  assert (Hl1 : timers (decay_recv 1 s) !! id = Some tm).
  { unfold decay_recv. destruct (GoInt.add (cnt s) 1 =? 0); simpl.
    - rewrite lookup_app_l by (eapply lookup_lt_Some; eassumption). assumption.
    - destruct (t s) as [id0|]; [|assumption].
      destruct (Stop_lookup_any id0 id _ tm Hl) as (tm' & Hl' & _ & _ & Hsame).
      rewrite Hl'. f_equal. apply Hsame. congruence. }
  destruct (flags_decay_recv s 1) as (_ & _ & Hh & _).
  eexists. split; [unfold Register, send; now rewrite Hc, Hr|].
  split; [apply cnt_decay_recv|]. split; [assumption|].
  simpl. rewrite Hl1, He. simpl.
  split; [reflexivity|]. simpl. split; [now rewrite Hh | reflexivity].
Qed.

Lemma Register_does_not_stop_a_started_clear_witness :
  exists s s1 s2 : state (list Z),
    run [CallRegister; CallUpdate 5; CallDone; Elapse (150 * Millisecond); TimerExpire 0]
        (NewSelfCleaningHistogram [] (150 * Millisecond)) = Some s /\
    Register s = Some s1 /\ cnt s1 = 1 /\
    step (TimerRun 0) s1 = Some s2 /\ hist s2 = [].
Proof.
  eexists.
  match goal with
  | |- exists s1 s2, run _ _ = Some ?a /\ _ =>
      destruct (Register_does_not_stop_a_started_clear
                  {| hist := ([5] : list Z); ctx_done := false;
                     delay := 150 * Millisecond; t := Some 0%nat; cnt := 0;
                     running := true;
                     timers := [ {| when := 150 * Millisecond; status := Expired |} ];
                     now := 150 * Millisecond |}
                  0 {| when := 150 * Millisecond; status := Expired |}
                  eq_refl eq_refl eq_refl eq_refl)
        as (s1 & s2 & Hreg & Hc & _ & Hrun & Hh & _)
  end.
  exists s1, s2. split; [reflexivity|]. split; [exact Hreg|].
  split; [rewrite Hc; reflexivity|]. split; [exact Hrun | exact Hh].
Defined.

(** ** The histogram does not steer the coordination *)

Section Passthrough.

Context {H : Type} `{Histogram H}.

Implicit Types (s : state H) (e : event).

(** A step reads nothing of the histogram to decide what it does to the
    rest of the state. *)
Lemma coordination_step s1 s2 s1' e :
  coordination s1 = coordination s2 -> is_update e = false ->
  step e s1 = Some s1' ->
  exists s2', step e s2 = Some s2' /\ coordination s1' = coordination s2'.
Proof.
  intros Hco Hnu Hs.
  destruct s1 as [h1 c1 d1 t1 n1 r1 l1 w1], s2 as [h2 c2 d2 t2 n2 r2 l2 w2].
  unfold coordination in Hco. simpl in Hco. inversion Hco; subst. clear Hco.
  destruct e; try discriminate Hnu; simpl in Hs |- *.
  - unfold Register, send, decay_recv in *. simpl in *.
    destruct c2; [inversion Hs; eexists; split; reflexivity|].
    destruct r2; [|discriminate].
    destruct (GoInt.add n2 1 =? 0); inversion Hs; eexists; split; reflexivity.
  - unfold Done, send, decay_recv in *. simpl in *.
    destruct c2; [inversion Hs; eexists; split; reflexivity|].
    destruct r2; [|discriminate].
    destruct (GoInt.add n2 (-1) =? 0); inversion Hs; eexists; split; reflexivity.
  - inversion Hs. eexists; split; reflexivity.
  - destruct (c2 && r2); inversion Hs. eexists; split; reflexivity.
  - destruct (0 <=? d); inversion Hs. eexists; split; reflexivity.
  - destruct (l2 !! id) as [tm|]; [|discriminate].
    destruct (is_pending tm && (when tm <=? w2)); inversion Hs.
    eexists; split; reflexivity.
  - destruct (l2 !! id) as [tm|]; [|discriminate].
    destruct (timer_status_eqb (status tm) Expired); inversion Hs.
    eexists; split; reflexivity.
Qed.

Lemma coordination_update s (v : Z) :
  coordination (set_hist (Update v (hist s)) s) = coordination s.
Proof. reflexivity. Qed.

Lemma coordination_run (evs : list event) s1 s2 s1' :
  coordination s1 = coordination s2 -> run evs s1 = Some s1' ->
  exists s2', run (without_updates evs) s2 = Some s2' /\
              coordination s1' = coordination s2'.
Proof.
  revert s1 s2. induction evs as [|e evs IH]; simpl; intros s1 s2 Hco Hr.
  - inversion Hr; subst s1'. eauto.
  - destruct (step e s1) as [s1m|] eqn:Hs; [|discriminate].
    destruct (is_update e) eqn:Hu; simpl.
    + destruct e; try discriminate Hu. simpl in Hs. inversion Hs; subst s1m.
      apply (IH (set_hist (Update v (hist s1)) s1) s2); [|assumption].
      rewrite coordination_update. assumption.
    + destruct (coordination_step s1 s2 s1m e Hco Hu Hs) as (s2m & Hs2 & Hco').
      rewrite Hs2. now apply (IH s1m s2m).
Qed.

End Passthrough.

(** X10: the samples do not steer the coordination.  Whatever a run does,
    the same run without its calls of [Update], started on any histogram,
    is possible as well and ends with the same counter, timer handle, timers,
    context and clock: [decay] never looks at the histogram it wraps. *)
Theorem Update_does_not_interfere {H : Type} `{Histogram H}
    (evs : list event) (s s' : state H) (h : H) :
  run evs s = Some s' ->
  exists s'' : state H,
    run (without_updates evs) (set_hist h s) = Some s'' /\
    coordination s'' = coordination s' /\
    cnt s'' = cnt s' /\ armed s'' = armed s' /\ timers s'' = timers s'.
Proof.
  intros Hr.
  destruct (coordination_run evs s (set_hist h s) s' eq_refl Hr) as (s'' & Hr' & Hco).
  exists s''. split; [assumption|]. split; [now symmetry|].
  unfold coordination in Hco. inversion Hco as [[Hc Hd Ht Hn Hrn Hl Hw]].
  unfold armed. rewrite Hl. auto.
Qed.

Lemma Update_does_not_interfere_witness :
  exists s'' : state (list Z),
    run [CallRegister; CallDone] (NewSelfCleaningHistogram [7] (150 * Millisecond))
      = Some s'' /\
    timers s'' = [ {| when := 150 * Millisecond; status := Pending |} ].
Proof.
  assert (Hr : run [CallRegister; CallUpdate 150; CallUpdate 100; CallDone]
                 (NewSelfCleaningHistogram ([] : list Z) (150 * Millisecond))
               = Some {| hist := [150; 100]; ctx_done := false;
                         delay := 150 * Millisecond; t := Some 0%nat; cnt := 0;
                         running := true;
                         timers := [ {| when := 150 * Millisecond; status := Pending |} ];
                         now := 0 |}) by reflexivity.
  destruct (Update_does_not_interfere _ _ _ [7] Hr) as (s'' & Hrun & _ & _ & _ & Hl).
  exists s''. split; [exact Hrun | exact Hl].
Defined.

(** ** Idle reclamation *)

(** X12: an armed timer is never stuck.  In every state where a timer is
    armed, letting the time up to its instant go by is enough for it to
    expire and for its goroutine to clear the histogram, leaving the counter
    at zero and no timer armed. *)
Theorem armed_timer_can_clear {H : Type} `{Histogram H} (s : state H) :
  reachable s -> armed s = true ->
  exists (id : nat) (tm : Timer) (s' : state H),
    t s = Some id /\ timers s !! id = Some tm /\ status tm = Pending /\
    run [Elapse (Z.max 0 (when tm - now s)); TimerExpire id; TimerRun id] s = Some s' /\
    hist s' = Clear (hist s) /\
    cnt s' = 0 /\ armed s' = false /\
    timers s' !! id = Some (set_status Ran tm).
Proof.
  intros Hre Ha. pose proof (inv_reachable s Hre) as Hi.
  apply armed_true in Ha. destruct Ha as (id & tm & Hl & Hp).
  destruct (inv_pending s Hi id tm Hl Hp) as (Ht & Hz & Hr).
  assert (Hlt : (id < length (timers s))%nat) by (eapply lookup_lt_Some; eassumption).
  exists id, tm. eexists. split; [assumption|]. split; [assumption|]. split; [assumption|].
  simpl.
  assert ((0 <=? Z.max 0 (when tm - now s)) = true) as -> by (apply Z.leb_le; lia).
  simpl. rewrite Hl. apply is_pending_true in Hp. rewrite Hp.
  assert ((when tm <=? now s + Z.max 0 (when tm - now s)) = true) as ->
    by (apply Z.leb_le; lia).
  simpl. rewrite list_lookup_insert_eq by assumption. simpl.
  split; [reflexivity|]. simpl. split; [reflexivity|]. split; [assumption|].
  split.
  - apply armed_false. simpl. intros j tm' Hl' Hp'.
    destruct (decide (id = j)) as [->|Hne].
    + rewrite list_lookup_insert_eq in Hl' by (rewrite length_insert; assumption).
      inversion Hl'; subst tm'. discriminate Hp'.
    + rewrite !list_lookup_insert_ne in Hl' by assumption.
      destruct (inv_pending s Hi j tm' Hl' Hp') as (Ht' & _). congruence.
  - simpl. rewrite list_lookup_insert_eq by (rewrite length_insert; assumption).
    reflexivity.
Qed.

Lemma armed_timer_can_clear_witness :
  exists s s' : state (list Z),
    run [CallRegister; CallUpdate 5; CallDone; Elapse (20 * Millisecond)]
        (NewSelfCleaningHistogram [] (150 * Millisecond)) = Some s /\
    run [Elapse (130 * Millisecond); TimerExpire 0; TimerRun 0] s = Some s' /\
    hist s' = [].
Proof.
  assert (Hr : run [CallRegister; CallUpdate 5; CallDone; Elapse (20 * Millisecond)]
                 (NewSelfCleaningHistogram ([] : list Z) (150 * Millisecond))
               = Some {| hist := [5]; ctx_done := false; delay := 150 * Millisecond;
                         t := Some 0%nat; cnt := 0; running := true;
                         timers := [ {| when := 150 * Millisecond; status := Pending |} ];
                         now := 20 * Millisecond |}) by reflexivity.
  destruct (armed_timer_can_clear _ (ex_intro _ _ (ex_intro _ _ (ex_intro _ _ Hr))) eq_refl)
    as (id & tm & s' & Ht & Hl & _ & Hrun & Hh & _).
  simpl in Ht. inversion Ht; subst id. simpl in Hl. inversion Hl; subst tm.
  eexists. exists s'. split; [exact Hr|]. split; [exact Hrun | exact Hh].
Defined.
